(** * ihme-ui: the choropleth component and its responsive container

    A shallow embedding of
      - src/ui/choropleth/src/choropleth.jsx  (class Choropleth)
      - src/ui/responsive-container/src/index.jsx  (ResponsiveContainer)
    together with the library calls they rely on (lodash keyBy, filter, has,
    isEqual, memoize; d3-zoom transforms and scale extent).

    Conventions.
      - A JavaScript number is a rational extended with +Infinity, -Infinity
        and NaN.  Arithmetic is exact: rounding is not modelled, and zero
        carries no sign (so 1 / 0 is +Infinity).
      - A JavaScript object used as a dictionary is a [gmap string _].
      - Object identity ([===] on objects and arrays) is an address carried
        next to the value, see [Ref].
      - A call that throws (a TypeError on [undefined], an invalid layer)
        returns [None]. *)

From Stdlib Require Import QArith Qcanon Lqa.
From stdpp Require Import base option list strings gmap fin_maps.

Set Default Proof Using "Type".

(** ** JavaScript numbers *)

Module JS.

Inductive num : Type :=
  | Fin (q : Qc)
  | PInf
  | NInf
  | NaN.

Definition of_Z (z : Z) : num := Fin (Q2Qc (inject_Z z)).
Definition of_Q (q : Q) : num := Fin (Q2Qc q).

Definition zero : num := of_Z 0.
Definition one : num := of_Z 1.

Definition Qc_eqb (p q : Qc) : bool := Qeq_bool p q.
Definition Qc_leb (p q : Qc) : bool := Qle_bool p q.
Definition Qc_ltb (p q : Qc) : bool := negb (Qc_leb q p).

Definition inf_of (positive : bool) : num := if positive then PInf else NInf.

(** [±Infinity * q] for a finite [q]. *)
Definition inf_times (positive : bool) (q : Qc) : num :=
  if Qc_eqb q 0 then NaN
  else if Qc_ltb 0 q then inf_of positive
  else inf_of (negb positive).

Definition neg (a : num) : num :=
  match a with
  | Fin q => Fin (- q)
  | PInf => NInf
  | NInf => PInf
  | NaN => NaN
  end.

Definition add (a b : num) : num :=
  match a, b with
  | NaN, _ | _, NaN => NaN
  | Fin p, Fin q => Fin (p + q)
  | PInf, NInf | NInf, PInf => NaN
  | PInf, _ | _, PInf => PInf
  | NInf, _ | _, NInf => NInf
  end.

Definition mul (a b : num) : num :=
  match a, b with
  | NaN, _ | _, NaN => NaN
  | Fin p, Fin q => Fin (p * q)
  | Fin p, PInf | PInf, Fin p => inf_times true p
  | Fin p, NInf | NInf, Fin p => inf_times false p
  | PInf, PInf | NInf, NInf => PInf
  | PInf, NInf | NInf, PInf => NInf
  end.

Definition div (a b : num) : num :=
  match a, b with
  | NaN, _ | _, NaN => NaN
  | Fin p, Fin q =>
      if Qc_eqb q 0
      then (if Qc_eqb p 0 then NaN else inf_of (Qc_ltb 0 p))
      else Fin (p / q)
  | Fin _, PInf | Fin _, NInf => zero
  | PInf, Fin q => inf_of (Qc_leb 0 q)
  | NInf, Fin q => inf_of (negb (Qc_leb 0 q))
  | PInf, PInf | PInf, NInf | NInf, PInf | NInf, NInf => NaN
  end.

(** [a <= b]; every comparison with NaN is false. *)
Definition leb (a b : num) : bool :=
  match a, b with
  | NaN, _ | _, NaN => false
  | NInf, _ => true
  | _, PInf => true
  | Fin p, Fin q => Qc_leb p q
  | PInf, _ => false
  | Fin _, NInf => false
  end.

(** [a >= b] *)
Definition geb (a b : num) : bool := leb b a.

(** [a === b] on numbers: NaN differs from itself. *)
Definition eqb (a b : num) : bool :=
  match a, b with
  | Fin p, Fin q => Qc_eqb p q
  | PInf, PInf | NInf, NInf => true
  | _, _ => false
  end.

(** [a !== b] *)
Definition neqb (a b : num) : bool := negb (eqb a b).

(** [!a]: zero and NaN are the falsy numbers. *)
Definition falsy (a : num) : bool :=
  match a with
  | Fin q => Qc_eqb q 0
  | NaN => true
  | PInf | NInf => false
  end.

Definition is_nan (a : num) : bool :=
  match a with NaN => true | _ => false end.

(** [Math.max(a, b)] and [Math.min(a, b)]: NaN if either argument is. *)
Definition max (a b : num) : num :=
  if is_nan a || is_nan b then NaN else if leb a b then b else a.

Definition min (a b : num) : num :=
  if is_nan a || is_nan b then NaN else if leb a b then a else b.

#[global] Instance num_eq_dec : EqDecision num.
Proof. solve_decision. Defined.

End JS.

Import JS.

Declare Scope num_scope.
Delimit Scope num_scope with num.
Bind Scope num_scope with num.
Notation "a + b" := (JS.add a b) : num_scope.
Notation "a * b" := (JS.mul a b) : num_scope.
Notation "a / b" := (JS.div a b) : num_scope.
Notation "- a" := (JS.neg a) : num_scope.
Notation "a <=? b" := (JS.leb a b) : num_scope.
Notation "a >=? b" := (JS.geb a b) : num_scope.
Notation "a =? b" := (JS.eqb a b) : num_scope.
Notation "a !=? b" := (JS.neqb a b) (at level 70) : num_scope.
Notation "0" := JS.zero : num_scope.
Notation "1" := JS.one : num_scope.

Definition sub (a b : num) : num := (a + - b)%num.
Notation "a - b" := (sub a b) : num_scope.

Abbreviation Point := (num * num)%type.

(** ** Object identity

    An object or array value together with its address: [same_ref] is [===]
    on two such values.  Nothing ties the content to the address, so an
    array mutated in place is the same address with another content. *)

Record Ref (A : Type) : Type := mkRef { addr : nat; deref : A }.
Arguments mkRef {A} _ _.
Arguments addr {A} _.
Arguments deref {A} _.

Definition same_ref {A : Type} (r1 r2 : Ref A) : bool :=
  bool_decide (addr r1 = addr r2).

(** ** lodash *)

Module lodash.

(** [_.keyBy(collection, iteratee)]: the object is filled in array order,
    each element assigned under its key, so that the value of each key is
    the last element responsible for generating the key (lodash
    documentation). *)
Definition keyBy {A : Type} (collection : list A) (iteratee : A → string)
  : gmap string A :=
  foldl (λ result value, <[iteratee value := value]> result) ∅ collection.

(** [_.has(object, path)]; [object] may be [undefined]. *)
Definition has {A : Type} (object : option (gmap string A)) (path : string)
  : bool :=
  match object with
  | Some o => bool_decide (is_Some (o !! path))
  | None => false
  end.

(** [_.isEqual(a, b)]: deep comparison by value. *)
Definition isEqual {A : Type} `{EqDecision A} (a b : A) : bool :=
  bool_decide (a = b).

(** [_.memoize(func)] without a resolver: by default, the first argument
    provided to the memoized function is used as the map cache key (lodash
    documentation).  A call takes the cache and returns the result with the
    cache after the call. *)
Definition memoize {A B R : Type} (func : string → A → B → R)
    (cache : gmap string R) (key : string) (a : A) (b : B)
  : R * gmap string R :=
  match cache !! key with
  | Some r => (r, cache)
  | None => let r := func key a b in (r, <[key := r]> cache)
  end.

End lodash.

(** ** d3-zoom

    The zoom/pan controller of the component is d3-zoom, which is not among
    the sources; transforms follow its [Transform] class, the handling of
    the scale extent follows the spec. *)

Module d3.

(** A zoom transform [{k, x, y}]. *)
Record Transform : Type := mkTransform { k : num; x : num; y : num }.

Definition zoomIdentity : Transform := mkTransform 1 0 0.

(** [transform.translate(tx, ty)] *)
Definition translate (t : Transform) (tx ty : num) : Transform :=
  mkTransform (k t) (x t + k t * tx) (y t + k t * ty).

(** [transform.scale(s)] *)
Definition scale (t : Transform) (s : num) : Transform :=
  mkTransform (k t * s) (x t) (y t).

(** [transform.invert(point)] *)
Definition invert (t : Transform) (p : Point) : Point :=
  ((p.1 - x t) / k t, (p.2 - y t) / k t)%num.

(** The zoom behaviour; only its scale extent is configured here, the
    translate extent stays at its unbounded default. *)
Record Zoom : Type := mkZoom { scaleExtent : num * num }.

(** [d3.zoom()] *)
Definition zoom : Zoom := mkZoom (0%num, PInf).

(** [zoom.scaleExtent([k0, k1])] *)
Definition with_scaleExtent (z : Zoom) (extent : num * num) : Zoom :=
  mkZoom extent.

(** Modelled from the spec: the clamp of d3-zoom, which is not among the
    sources.  The controller clamps the scale of a gesture or of a zoom
    button to [[scaleExtentMin, scaleExtentMax]]; a transform set through
    [zoom.transform] is stored as it is. *)
Definition clamp (z : Zoom) (k1 : num) : num :=
  JS.max (scaleExtent z).1 (JS.min (scaleExtent z).2 k1).

(** Modelled from the spec: [zoom.scaleBy(selection, factor)] of d3-zoom,
    which is not among the sources, on an element of the given size whose
    current transform is [t0]: the current scale is multiplied by the
    factor and clamped, re-centred on the current viewport centre. *)
Definition scaleBy (z : Zoom) (size : Point) (t0 : Transform) (factor : num)
  : Transform :=
  let p0 := ((0 + size.1) / of_Z 2, (0 + size.2) / of_Z 2)%num in
  let p1 := invert t0 p0 in
  let k1 := clamp z (k t0 * factor)%num in
  mkTransform k1 (p0.1 - p1.1 * k1)%num (p0.2 - p1.2 * k1)%num.

End d3.

(** ** The data model *)

Abbreviation Style := (gmap string string).
Abbreviation Bounds := (Point * Point)%type.

(** [d3.geoClipExtent().extent([[x0, y0], [x1, y1]])] *)
Abbreviation ClipExtent := (Point * Point)%type.

Inductive LayerType : Type := feature | mesh.

#[global] Instance LayerType_eq_dec : EqDecision LayerType.
Proof. solve_decision. Defined.

Definition type_name (t : LayerType) : string :=
  match t with feature => "feature" | mesh => "mesh" end.

(** The geometry cache [{ feature: {name: ...}, mesh: {name: ...} }]. *)
Record Cache (G : Type) : Type := mkCache {
  cache_feature : gmap string G;
  cache_mesh : gmap string G;
}.
Arguments mkCache {G} _ _.
Arguments cache_feature {G} _.
Arguments cache_mesh {G} _.

(** [cache[type]] *)
Definition cache_at {G : Type} (c : Cache G) (t : LayerType) : gmap string G :=
  match t with feature => cache_feature c | mesh => cache_mesh c end.

(** What the component imports and this development does not define:
    topojson's [presimplify], [feature] and [mesh], and the helpers of
    [src/utils] other than [extractGeoJSON] and [quickMerge].  They are
    parameters of everything below. *)
Class Env : Type := {
  Topology : Type;
  Geometry : Type;
  MeshFilter : Type;
  Datum : Type;
  KeyField : Type;
  (** the props the component only hands on to its children: colour scale,
      pointer callbacks, selected locations, value and geometry key fields *)
  Passthrough : Type;
  presimplify : Topology → Topology;
  (** [topojson.feature(topology, topology.objects[object])];
      [None] when the topology has no such object *)
  topojson_feature : Topology → string → option Geometry;
  (** [topojson.mesh(topology, topology.objects[object], filterFn)] *)
  topojson_mesh : Topology → string → option MeshFilter → option Geometry;
  concatAndComputeGeoJSONBounds : Cache Geometry → Bounds;
  calcScale : num → num → Bounds → num;
  calcTranslate : num → num → num → Bounds → option Point → Point;
  calcCenterPoint : num → num → num → Point → Point;
  propResolver : Datum → KeyField → string;
}.

Section Model.
Context `{E : Env}.

(** [layer.style]: a style object, a function of the mesh feature, or
    absent. *)
Inductive LayerStyle : Type :=
  | StyleObject (o : Style)
  | StyleFunction (f : option Geometry → Style)
  | StyleUndefined.

Record Layer : Type := mkLayer {
  name : string;
  type : LayerType;
  object : string;
  visible : bool;
  filterFn : option MeshFilter;
  className : string;
  selectedClassName : string;
  style : LayerStyle;
  selectedStyle : LayerStyle;
}.

Record Props : Type := mkProps {
  topology : Ref Topology;
  layers : Ref (list Layer);
  data : Ref (list Datum);
  keyField : KeyField;
  width : num;
  height : num;
  minZoom : num;
  maxZoom : num;
  zoomStep : num;
  controls : bool;
  passthrough : Passthrough;
}.

(** The projection built by [createPathGenerator]: what the stream
    closure captures. *)
Record PathGenerator : Type := mkPathGenerator {
  pg_scale : num;
  pg_translate : Point;
  pg_clipExtent : ClipExtent;
}.

Record State : Type := mkState {
  bounds : Bounds;
  scale : num;
  scaleBase : num;
  translate : Point;
  pathGenerator : PathGenerator;
  cache : Cache Geometry;
  processedData : gmap string Datum;
}.

(** An object of new state handed to [setState]: the keys it has. *)
Record StateUpdate : Type := mkStateUpdate {
  new_bounds : option Bounds;
  new_scale : option num;
  new_scaleBase : option num;
  new_translate : option Point;
  new_pathGenerator : option PathGenerator;
  new_cache : option (Cache Geometry);
  new_processedData : option (gmap string Datum);
}.

Definition no_update : StateUpdate :=
  mkStateUpdate None None None None None None None.

(** [this.setState(update)]: the keys of the update replace those of the
    state, the other keys stay. *)
Definition setState (s : State) (u : StateUpdate) : State :=
  {| bounds := default (bounds s) (new_bounds u);
     scale := default (scale s) (new_scale u);
     scaleBase := default (scaleBase s) (new_scaleBase u);
     translate := default (translate s) (new_translate u);
     pathGenerator := default (pathGenerator s) (new_pathGenerator u);
     cache := default (cache s) (new_cache u);
     processedData := default (processedData s) (new_processedData u) |}.

(** A component instance: props, state and the instance fields
    [this.clipExtent], [this.zoom], [this._svgNode] (with the zoom
    transform stored on the node, the identity until one is set) and the
    cache of the memoized [this.calcMeshLayerStyle].  [zoom_listener]
    tells whether [zoomEvent] has been registered on [this.zoom]. *)
Record Choropleth : Type := mkChoropleth {
  props : Props;
  state : State;
  clipExtent : ClipExtent;
  zoom : d3.Zoom;
  zoom_listener : bool;
  _svgNode : option d3.Transform;
  meshStyleCache : gmap string Style;
}.

(** slightly pad clip extent so that the boundary of the map does not
    show borders *)
Definition CLIP_EXTENT_PADDING : num := 1%num.

Definition padded_extent (w h : num) : ClipExtent :=
  ((- CLIP_EXTENT_PADDING, - CLIP_EXTENT_PADDING),
   (w + CLIP_EXTENT_PADDING, h + CLIP_EXTENT_PADDING))%num.

(** *** Helpers of [src/utils] *)

Definition empty_cache : Cache Geometry := mkCache ∅ ∅.

Definition cache_insert (t : LayerType) (n : string) (g : Geometry)
    (c : Cache Geometry) : Cache Geometry :=
  match t with
  | feature => mkCache (<[n := g]> (cache_feature c)) (cache_mesh c)
  | mesh => mkCache (cache_feature c) (<[n := g]> (cache_mesh c))
  end.

(** The geometry of one layer, or [None] for the invalid-layer error. *)
Definition layer_geometry (topo : Topology) (l : Layer) : option Geometry :=
  match type l with
  | feature => topojson_feature topo (object l)
  | mesh => topojson_mesh topo (object l) (filterFn l)
  end.

Fixpoint extract_into (topo : Topology) (ls : list Layer)
    (acc : Cache Geometry) : option (Cache Geometry) :=
  match ls with
  | [] => Some acc
  | l :: ls' =>
      g ← layer_geometry topo l;
      extract_into topo ls' (cache_insert (type l) (name l) g acc)
  end.

(** Modelled from the spec: [extractGeoJSON] of [src/utils], which is not
    among the sources.  For each layer of type feature the object named by
    [layer.object] is converted to a feature collection, for each layer of
    type mesh its mesh is computed, filtered by [layer.filterFn]; the
    result is [{ feature: {name: ...}, mesh: {name: ...} }].  A layer whose
    object the topology does not have is an error. *)
Definition extractGeoJSON (topo : Topology) (ls : list Layer)
  : option (Cache Geometry) :=
  extract_into topo ls empty_cache.

(** Modelled from the spec: [quickMerge] of [src/utils], which is not
    among the sources, in the call [quickMerge({}, cache, extracted)]: the
    cached entries are carried forward and the extracted ones added, an
    extracted entry replacing a cached one of the same type and name. *)
Definition quickMerge (cached extracted : Cache Geometry) : Cache Geometry :=
  mkCache (cache_feature extracted ∪ cache_feature cached)
          (cache_mesh extracted ∪ cache_mesh cached).

(** *** The class [Choropleth] *)

Definition processData (data : list Datum) (keyField : KeyField)
  : gmap string Datum :=
  lodash.keyBy data (λ datum, propResolver datum keyField).

(** The [point] method handed to [geoTransform] by [createPathGenerator]:
    [Some (pointX, pointY)] when it calls [this.stream.point], [None] when
    it drops the point. *)
Definition point (scale : num) (translate : Point) (x y z : num)
  : option Point :=
  let area := (1 / scale / scale)%num in
  let pointX := (x * scale + translate.1)%num in
  let pointY := (y * scale + translate.2)%num in
  if (z >=? area)%num then Some (pointX, pointY) else None.

Definition createPathGenerator (scale : num) (translate : Point)
    (clipExtent : ClipExtent) : PathGenerator :=
  mkPathGenerator scale translate clipExtent.

(** The points a path generator hands to the clip stream for a sequence
    of geometry points [(x, y, z)]. *)
Definition stream_points (pg : PathGenerator) (pts : list (num * num * num))
  : list Point :=
  omap (λ p, point (pg_scale pg) (pg_translate pg) p.1.1 p.1.2 p.2) pts.

Definition calcMeshLayerStyle (key : string) (layerStyle : LayerStyle)
    (feature : option Geometry) : Style :=
  let baseStyle : Style := {[ "pointerEvents" := "none" ]} in
  let computedStyle : Style :=
    match layerStyle with
    | StyleFunction f => f feature
    | StyleObject o => o
    | StyleUndefined => ∅
    end in
  (* { ...baseStyle, ...computedStyle } *)
  computedStyle ∪ baseStyle.

(** [this.calcMeshLayerStyle] after the constructor has replaced it by
    [memoize(this.calcMeshLayerStyle)]. *)
Definition calcMeshLayerStyle_memoized (memo : gmap string Style)
    (key : string) (layerStyle : LayerStyle) (feature : option Geometry)
  : Style * gmap string Style :=
  lodash.memoize calcMeshLayerStyle memo key layerStyle feature.

Definition constructor (p : Props) : option Choropleth :=
  extractedGeoJSON ← extractGeoJSON (presimplify (deref (topology p)))
                                    (deref (layers p));
  let bounds := concatAndComputeGeoJSONBounds extractedGeoJSON in
  let scale := calcScale (width p) (height p) bounds in
  let translate := calcTranslate (width p) (height p) scale bounds None in
  let clipExtent := padded_extent (width p) (height p) in
  Some {|
    props := p;
    state := {|
      bounds := bounds;
      scale := scale;
      scaleBase := scale;
      translate := translate;
      pathGenerator := createPathGenerator scale translate clipExtent;
      cache := extractedGeoJSON;
      processedData := processData (deref (data p)) (keyField p) |};
    clipExtent := clipExtent;
    zoom := d3.with_scaleExtent d3.zoom
              (JS.max scale (minZoom p), JS.max scale (maxZoom p));
    zoom_listener := false;
    _svgNode := None;
    meshStyleCache := ∅ |}.

(** return current zoom transform or identity transform if svgNode does
    not exist or does not have a zoom transform *)
Definition currentZoomTransform (c : Choropleth) : d3.Transform :=
  match _svgNode c with
  | None => d3.zoomIdentity
  | Some t => t
  end.

Definition with_state (c : Choropleth) (s : State) : Choropleth :=
  mkChoropleth (props c) s (clipExtent c) (zoom c) (zoom_listener c)
               (_svgNode c) (meshStyleCache c).

Definition zoomEvent (c : Choropleth) : Choropleth :=
  let transform := currentZoomTransform c in
  let scale := d3.k transform in
  let translate := (d3.x transform, d3.y transform) in
  let pathGenerator := createPathGenerator scale translate (clipExtent c) in
  with_state c (setState (state c) {|
    new_bounds := None;
    new_scale := Some scale;
    new_scaleBase := None;
    new_translate := Some translate;
    new_pathGenerator := Some pathGenerator;
    new_cache := None;
    new_processedData := None |}).

(** [this._svgSelection.call(this.zoom.transform, t)]: the transform is
    stored on the node as it is and the zoom listeners are called.  With
    no node [this._svgSelection] is not an object and the call throws. *)
Definition zoom_transform (c : Choropleth) (t : d3.Transform)
  : option Choropleth :=
  match _svgNode c with
  | None => None
  | Some _ =>
      let c' := mkChoropleth (props c) (state c) (clipExtent c) (zoom c)
                  (zoom_listener c) (Some t) (meshStyleCache c) in
      Some (if zoom_listener c then zoomEvent c' else c')
  end.

(** [saveSvgRef(ref)]: [ref] is the svg node, given by the zoom transform
    stored on it, or [null]. *)
Definition saveSvgRef (c : Choropleth) (ref : option d3.Transform)
  : Choropleth :=
  mkChoropleth (props c) (state c) (clipExtent c) (zoom c)
               (zoom_listener c) ref (meshStyleCache c).

Definition componentDidMount (c : Choropleth) : option Choropleth :=
  let '(x, y) := translate (state c) in
  (* this.zoom.on('zoom.ihme-ui-choropleth', this.zoomEvent) *)
  let c' := mkChoropleth (props c) (state c) (clipExtent c) (zoom c)
              true (_svgNode c) (meshStyleCache c) in
  zoom_transform c'
    (d3.scale (d3.translate d3.zoomIdentity x y) (scale (state c))).

(** The local [cache] of [componentWillReceiveProps]: a copy of the
    state's cache when the topology is the same object, and [{}], here
    [None], otherwise. *)
Definition starting_cache (c : Choropleth) (nextProps : Props)
  : option (Cache Geometry) :=
  if same_ref (topology nextProps) (topology (props c))
  then Some (cache (state c))
  else None.

(** The layers [componentWillReceiveProps] hands to [extractGeoJSON]. *)
Definition uncachedLayers (c : Choropleth) (nextProps : Props) : list Layer :=
  let cache := starting_cache c nextProps in
  let visibleLayers := List.filter visible (deref (layers nextProps)) in
  List.filter
    (λ layer,
       bool_decide (type layer = mesh)
       || negb (lodash.has ((λ ca, cache_at ca (type layer)) <$> cache)
                           (name layer)))
    visibleLayers.

(** The layers of the call of [extractGeoJSON] that a props update makes;
    none when it makes no call. *)
Definition extracted_layers (c : Choropleth) (nextProps : Props)
  : list Layer :=
  if negb (same_ref (topology nextProps) (topology (props c)))
     || negb (same_ref (layers nextProps) (layers (props c)))
  then uncachedLayers c nextProps
  else [].

(** if topology or layers change, calc new bounds, and if bounds change,
    calc new scale.  (A topology that is the same object is used as it is:
    topojson's [presimplify] works in place, so it is the object the
    constructor has presimplified.) *)
Definition receive_geometry (c : Choropleth) (nextProps : Props)
  : option StateUpdate :=
  if negb (same_ref (topology nextProps) (topology (props c)))
     || negb (same_ref (layers nextProps) (layers (props c)))
  then
    let topo :=
      if same_ref (topology nextProps) (topology (props c))
      then deref (topology nextProps)
      else presimplify (deref (topology nextProps)) in
    let cache := starting_cache c nextProps in
    let uncached := uncachedLayers c nextProps in
    match uncached with
    | [] => Some no_update
    | _ :: _ =>
        extracted ← extractGeoJSON topo uncached;
        let cache' := quickMerge (default empty_cache cache) extracted in
        let bounds' := concatAndComputeGeoJSONBounds cache' in
        Some {|
          new_bounds :=
            if lodash.isEqual bounds' (bounds (state c))
            then None else Some bounds';
          new_scale := None;
          new_scaleBase := None;
          new_translate := None;
          new_pathGenerator := None;
          new_cache := Some cache';
          new_processedData := None |}
    end
  else Some no_update.

(** if the component has been resized or has new bounds, set a new base
    scale and translate *)
Definition receive_view (c : Choropleth) (nextProps : Props)
    (u : StateUpdate) : option (Choropleth * StateUpdate) :=
  if (width nextProps !=? width (props c))%num
     || (height nextProps !=? height (props c))%num
     || bool_decide (is_Some (new_bounds u))
  then
    let clipExtent' := padded_extent (width nextProps) (height nextProps) in
    let c1 := mkChoropleth (props c) (state c) clipExtent' (zoom c)
                (zoom_listener c) (_svgNode c) (meshStyleCache c) in
    let bounds' := default (bounds (state c)) (new_bounds u) in
    let scaleBase' := calcScale (width nextProps) (height nextProps) bounds' in
    (* new scale equals scale at which bounds fit perfectly within new
       width and height transformed by how zoomed the current scale is *)
    let scale' := (scaleBase' * (scale (state c) / scaleBase (state c)))%num in
    let translate' :=
      match new_bounds u with
      | Some _ =>
          calcTranslate (width nextProps) (height nextProps)
                        scaleBase' bounds' None
      | None =>
          let transform := currentZoomTransform c1 in
          let center :=
            calcCenterPoint (width (props c)) (height (props c))
              (d3.k transform) (d3.x transform, d3.y transform) in
          calcTranslate (width nextProps) (height nextProps)
                        scale' bounds' (Some center)
      end in
    let pathGenerator' := createPathGenerator scale' translate' clipExtent' in
    c2 ← zoom_transform c1
           (d3.scale (d3.translate d3.zoomIdentity translate'.1 translate'.2)
                     scale');
    Some (c2, {|
      new_bounds := new_bounds u;
      new_scale := Some scale';
      new_scaleBase := Some scaleBase';
      new_translate := Some translate';
      new_pathGenerator := Some pathGenerator';
      new_cache := new_cache u;
      new_processedData := new_processedData u |})
  else Some (c, u).

(** if the data has changed, transform it to be consumable by <Layer /> *)
Definition receive_data (c : Choropleth) (nextProps : Props)
    (u : StateUpdate) : StateUpdate :=
  if negb (same_ref (data nextProps) (data (props c)))
  then {|
    new_bounds := new_bounds u;
    new_scale := new_scale u;
    new_scaleBase := new_scaleBase u;
    new_translate := new_translate u;
    new_pathGenerator := new_pathGenerator u;
    new_cache := new_cache u;
    new_processedData :=
      Some (processData (deref (data nextProps)) (keyField nextProps)) |}
  else u.

(** [componentWillReceiveProps(nextProps)], followed by the assignment of
    [nextProps] to [this.props] that ends the props update.  The
    [setState] of a [zoomEvent] raised by the call of [zoom.transform] is
    applied before the one that ends the function. *)
Definition componentWillReceiveProps (c : Choropleth) (nextProps : Props)
  : option Choropleth :=
  u1 ← receive_geometry c nextProps;
  '(c2, u2) ← receive_view c nextProps u1;
  let u3 := receive_data c2 nextProps u2 in
  (* if (Object.keys(state).length) this.setState(state): an update
     without keys leaves every key as it is *)
  Some (mkChoropleth nextProps (setState (state c2) u3) (clipExtent c2)
          (zoom c2) (zoom_listener c2) (_svgNode c2) (meshStyleCache c2)).

(** [this._svgSelection.call(this.zoom.scaleBy, factor)] *)
Definition zoom_scaleBy (c : Choropleth) (factor : num) : option Choropleth :=
  t0 ← _svgNode c;
  zoom_transform c
    (d3.scaleBy (zoom c) (width (props c), height (props c)) t0 factor).

Definition zoomIn (c : Choropleth) : option Choropleth :=
  zoom_scaleBy c (zoomStep (props c)).

Definition zoomOut (c : Choropleth) : option Choropleth :=
  zoom_scaleBy c (1 / zoomStep (props c))%num.

Definition zoomReset (c : Choropleth) : option Choropleth :=
  let '(x, y) := calcTranslate (width (props c)) (height (props c))
                   (scaleBase (state c)) (bounds (state c)) None in
  zoom_transform c
    (d3.scale (d3.translate d3.zoomIdentity x y) (scaleBase (state c))).

(** Modelled from the spec: a pointer or wheel gesture on the svg node,
    handled by d3-zoom, which is not among the sources.  The requested
    transform is stored with its scale clamped to the scale extent and the
    zoom listeners are called. *)
Definition gesture (c : Choropleth) (t : d3.Transform) : option Choropleth :=
  zoom_transform c
    (d3.mkTransform (d3.clamp (zoom c) (d3.k t)) (d3.x t) (d3.y t)).

(** What [renderLayers] returns for a visible layer. *)
Inductive Element : Type :=
  | FeatureLayer (key : string) (data : gmap string Datum)
      (features : Geometry) (keyField : KeyField)
      (pathClassName pathSelectedClassName : string)
      (pathGenerator : PathGenerator)
      (pathStyle pathSelectedStyle : LayerStyle) (rest : Passthrough)
  | Path (className : string) (key : string) (feature : option Geometry)
      (pathGenerator : PathGenerator) (style : Style).

(** The body of the [map] callback in [renderLayers]: [None] when reading
    [.features] of a feature layer that is not in the cache throws, the
    element ([None] for [null]) and the style cache otherwise. *)
Definition renderLayer (c : Choropleth) (memo : gmap string Style)
    (layer : Layer) : option (option Element * gmap string Style) :=
  if negb (visible layer) then Some (None, memo)
  else
    let key := type_name (type layer) +:+ "-" +:+ name layer in
    match type layer with
    | feature =>
        collection ← cache_feature (cache (state c)) !! name layer;
        Some (Some (FeatureLayer key (processedData (state c)) collection
                      (keyField (props c)) (className layer)
                      (selectedClassName layer) (pathGenerator (state c))
                      (style layer) (selectedStyle layer)
                      (passthrough (props c))),
              memo)
    | mesh =>
        let feature := cache_mesh (cache (state c)) !! name layer in
        let '(style', memo') :=
          calcMeshLayerStyle_memoized memo key (style layer) feature in
        Some (Some (Path (className layer) key feature
                      (pathGenerator (state c)) style'),
              memo')
    end.

Fixpoint renderLayers_from (c : Choropleth) (memo : gmap string Style)
    (ls : list Layer) : option (list (option Element) * gmap string Style) :=
  match ls with
  | [] => Some ([], memo)
  | layer :: ls' =>
      '(el, memo1) ← renderLayer c memo layer;
      '(els, memo2) ← renderLayers_from c memo1 ls';
      Some (el :: els, memo2)
  end.

Definition renderLayers (c : Choropleth)
  : option (list (option Element) * gmap string Style) :=
  renderLayers_from c (meshStyleCache c) (deref (layers (props c))).

(** The tree returned by [render]: the sizes of the container and of the
    svg, whether the controls are there, and the children of the svg. *)
Record Rendered : Type := mkRendered {
  div_width : num;
  div_height : num;
  with_controls : bool;
  svg_children : list (option Element);
}.

Definition render (c : Choropleth) : option (Rendered * Choropleth) :=
  '(children, memo) ← renderLayers c;
  Some (mkRendered (width (props c)) (height (props c))
          (controls (props c)) children,
        mkChoropleth (props c) (state c) (clipExtent c) (zoom c)
          (zoom_listener c) (_svgNode c) memo).

(** The key of a rendered element. *)
Definition element_key (el : Element) : string :=
  match el with
  | FeatureLayer key _ _ _ _ _ _ _ _ _ => key
  | Path _ key _ _ _ => key
  end.

(** The arguments of one call of [this.calcMeshLayerStyle]. *)
Record StyleCall : Type := mkStyleCall {
  call_key : string;
  call_style : LayerStyle;
  call_feature : option Geometry;
}.

(** The style a call would compute from its own arguments. *)
Definition own_style (call : StyleCall) : Style :=
  calcMeshLayerStyle (call_key call) (call_style call) (call_feature call).

(** The results of successive calls of the memoized function. *)
Fixpoint style_calls (memo : gmap string Style) (calls : list StyleCall)
  : list Style :=
  match calls with
  | [] => []
  | call :: calls' =>
      let '(r, memo') :=
        calcMeshLayerStyle_memoized memo (call_key call) (call_style call)
                                    (call_feature call) in
      r :: style_calls memo' calls'
  end.

(** [React.cloneElement(child, { width, height })] on a choropleth. *)
Definition with_size (p : Props) (w h : num) : Props :=
  mkProps (topology p) (layers p) (data p) (keyField p) w h
          (minZoom p) (maxZoom p) (zoomStep p) (controls p) (passthrough p).

(** Props that differ from [p] in the layers only. *)
Definition with_layers (p : Props) (ls : Ref (list Layer)) : Props :=
  mkProps (topology p) ls (data p) (keyField p) (width p) (height p)
          (minZoom p) (maxZoom p) (zoomStep p) (controls p) (passthrough p).

(** *** The life of a component *)

Inductive Event : Type :=
  | SaveSvgRef (ref : option d3.Transform)
  | DidMount
  | ReceiveProps (nextProps : Props)
  | Gesture (t : d3.Transform)
  | ZoomIn
  | ZoomOut
  | ZoomReset
  | Render.

Definition step (c : Choropleth) (e : Event) : option Choropleth :=
  match e with
  | SaveSvgRef ref => Some (saveSvgRef c ref)
  | DidMount => componentDidMount c
  | ReceiveProps nextProps => componentWillReceiveProps c nextProps
  | Gesture t => gesture c t
  | ZoomIn => zoomIn c
  | ZoomOut => zoomOut c
  | ZoomReset => zoomReset c
  | Render => snd <$> render c
  end.

Fixpoint run (c : Choropleth) (es : list Event) : option Choropleth :=
  match es with
  | [] => Some c
  | e :: es' => c' ← step c e; run c' es'
  end.

(** Mounting: the constructor, the first render, the ref callback with
    the svg node, [componentDidMount]. *)
Definition mount (p : Props) : option Choropleth :=
  c ← constructor p;
  run c [Render; SaveSvgRef (Some d3.zoomIdentity); DidMount].

(** What [zoomIn] and [zoomOut] rely on and keep: the component is mounted
    with props [p] and zoom behaviour [z], [zoomEvent] listens, and the
    scale of the state is the one of the transform on the node. *)
Definition zoom_ready (p : Props) (z : d3.Zoom) (c : Choropleth) : Prop :=
  props c = p ∧ zoom c = z ∧ zoom_listener c = true
  ∧ ∃ t, _svgNode c = Some t ∧ d3.k t = scale (state c).

Definition in_extent (z : d3.Zoom) (v : num) : Prop :=
  ((d3.scaleExtent z).1 <=? v)%num = true
  ∧ (v <=? (d3.scaleExtent z).2)%num = true.

End Model.

(** ** ResponsiveContainer *)

(** The function [ResponsiveContainer] gives to [AutoSizer] as its child:
    [None] is [null], and the children are cloned with the measured size. *)
Definition ResponsiveContainer_children {A : Type}
    (cloneElement : A → num → num → A) (children : list (option A))
    (width height : num) : option (list (option A)) :=
  if falsy width || falsy height then None
  else Some (map (λ child,
                    match child with
                    | None => None
                    | Some ch => Some (cloneElement ch width height)
                    end) children).

(** ** An environment to run the component in

    The helpers of [src/utils] and the topojson calls on a geometry reduced
    to its bounding box, for evaluating the component on concrete props. *)

Module SpecUtils.

(** A topology: its objects by name, each given by its bounding box. *)
Abbreviation Topology := (gmap string Bounds).

(** Modelled from the spec: [propResolver] of [src/utils], which is not
    among the sources.  A key field is a field name, looked up on the
    datum, or an accessor function, applied to it. *)
Inductive Accessor : Type :=
  | FieldName (field : string)
  | Fn (f : gmap string string → string).

Definition propResolver (datum : gmap string string) (a : Accessor) : string :=
  match a with
  | FieldName field => default "undefined" (datum !! field)
  | Fn f => f datum
  end.

Definition box_union (a b : Bounds) : Bounds :=
  ((JS.min a.1.1 b.1.1, JS.min a.1.2 b.1.2),
   (JS.max a.2.1 b.2.1, JS.max a.2.2 b.2.2)).

Definition empty_box : Bounds := ((PInf, PInf), (NInf, NInf)).

(** Modelled from the spec: [concatAndComputeGeoJSONBounds] of [src/utils],
    which is not among the sources: the union of the bounding boxes of all
    entries of the cache, feature and mesh, by a min/max reduction. *)
Definition concatAndComputeGeoJSONBounds (c : Cache Bounds) : Bounds :=
  map_fold (λ _ b acc, box_union b acc)
    (map_fold (λ _ b acc, box_union b acc) empty_box (cache_mesh c))
    (cache_feature c).

(** Modelled from the spec: [calcScale] of [src/utils], which is not among
    the sources: [min(width / boundsWidth, height / boundsHeight)]. *)
Definition calcScale (width height : num) (b : Bounds) : num :=
  JS.min (width / (b.2.1 - b.1.1))%num (height / (b.2.2 - b.1.2))%num.

(** Modelled from the spec: [calcTranslate] of [src/utils], which is not
    among the sources: the offset that centres the scaled bounds in the
    viewport or, given a centre in geographic space, the offset that puts
    this centre at the centre of the viewport. *)
Definition calcTranslate (width height scale : num) (b : Bounds)
    (center : option Point) : Point :=
  let c := default (((b.1.1 + b.2.1) / of_Z 2)%num,
                    ((b.1.2 + b.2.2) / of_Z 2)%num) center in
  ((width / of_Z 2 - scale * c.1)%num, (height / of_Z 2 - scale * c.2)%num).

(** Modelled from the spec: [calcCenterPoint] of [src/utils], which is not
    among the sources: the geographic point now at the centre of the
    viewport. *)
Definition calcCenterPoint (width height scale : num) (translate : Point)
  : Point :=
  (((width / of_Z 2 - translate.1) / scale)%num,
   ((height / of_Z 2 - translate.2) / scale)%num).

End SpecUtils.

Definition spec_env : Env :=
  Build_Env SpecUtils.Topology Bounds unit (gmap string string)
    SpecUtils.Accessor unit
    (λ topo, topo)
    (λ topo obj, topo !! obj)
    (λ topo obj _, topo !! obj)
    SpecUtils.concatAndComputeGeoJSONBounds
    SpecUtils.calcScale
    SpecUtils.calcTranslate
    SpecUtils.calcCenterPoint
    SpecUtils.propResolver.

(** *** Sample props *)

Section Samples.
#[local] Existing Instance spec_env.

Definition wide_box : Bounds := ((0, 0), (of_Z 300, of_Z 200))%num.

Definition sample_topology : Ref SpecUtils.Topology :=
  mkRef 1 {[ "countries" := wide_box; "borders" := wide_box ]}.

Definition countries (visible : bool) : Layer :=
  mkLayer "countries" feature "countries" visible None "" ""
          StyleUndefined StyleUndefined.

Definition borders (visible : bool) (style : LayerStyle) : Layer :=
  mkLayer "borders" mesh "borders" visible None "" "" style StyleUndefined.

Definition datum (id value : string) : gmap string string :=
  {[ "id" := id; "value" := value ]}.

Definition sample_data : Ref (list (gmap string string)) :=
  mkRef 2 [datum "1" "10"; datum "2" "90"].

(** Props with the zoom step of [Choropleth.defaultProps]. *)
Definition sample_props (ls : Ref (list Layer)) (width height : num)
    (minZoom maxZoom : num) : Props :=
  mkProps sample_topology ls sample_data (SpecUtils.FieldName "id")
          width height minZoom maxZoom (of_Q (11 # 10)) false ().

(** One feature layer in a viewport of 600 by 400, with the default zoom
    limits: the bounds are 300 by 200, the fitted scale is 2. *)
Definition p600 : Props :=
  sample_props (mkRef 10 [countries true]) (of_Z 600) (of_Z 400) 0%num PInf.

(** The same, resized to 300 by 200. *)
Definition p300 : Props :=
  sample_props (mkRef 10 [countries true]) (of_Z 300) (of_Z 200) 0%num PInf.

(** The same as [p600] with minZoom 5 and maxZoom 10. *)
Definition p600_zoom_5_10 : Props :=
  sample_props (mkRef 10 [countries true]) (of_Z 600) (of_Z 400)
               (of_Z 5) (of_Z 10).

(** The same as [p600] with a width of zero. *)
Definition p0 : Props :=
  sample_props (mkRef 10 [countries true]) 0%num (of_Z 400) 0%num PInf.

(** A feature layer under a mesh layer. *)
Definition two_layers (countries_visible borders_visible : bool)
    (style : LayerStyle) : list Layer :=
  [countries countries_visible; borders borders_visible style].

Definition p_two_layers (style : LayerStyle) : Props :=
  sample_props (mkRef 20 (two_layers true true style))
               (of_Z 600) (of_Z 400) 0%num PInf.

Definition red : Style := {[ "stroke" := "red" ]}.
Definition blue : Style := {[ "stroke" := "blue" ]}.
Definition clickable : Style :=
  {[ "stroke" := "black"; "pointerEvents" := "all" ]}.

(** *** Sample runs *)

(** A life of the component of [p600]: mounted, zoomed in once, resized to
    300 by 200, zoomed by a gesture and reset. *)
Definition lifecycle : list Event :=
  [Render; SaveSvgRef (Some d3.zoomIdentity); DidMount; ZoomIn;
   ReceiveProps p300; Gesture (d3.mkTransform (of_Z 5) 0%num 0%num);
   ZoomReset].

(** The component of [p600] zoomed by a gesture to scale 4, twice its base
    scale. *)
Definition zoomed_twice : option Choropleth :=
  c ← mount p600; gesture c (d3.mkTransform (of_Z 4) 0%num 0%num).

(** The two layers of [p_two_layers], the feature layer hidden by a first
    props update and shown again by a second. *)
Definition feature_toggled : option (Choropleth * Choropleth * Choropleth) :=
  c0 ← mount (p_two_layers StyleUndefined);
  c1 ← componentWillReceiveProps c0
         (with_layers (props c0)
            (mkRef 21 (two_layers false true StyleUndefined)));
  c2 ← componentWillReceiveProps c1
         (with_layers (props c0)
            (mkRef 22 (two_layers true true StyleUndefined)));
  Some (c0, c1, c2).

(** The [pointerEvents] of the style of a rendered mesh path. *)
Definition rendered_pointerEvents (el : option Element) : option string :=
  match el with
  | Some (Path _ _ _ _ st) => st !! "pointerEvents"
  | _ => None
  end.

(** Two calls with the key of the same mesh layer, the first with a red
    stroke and the second with a blue one. *)
Definition red_then_blue : list StyleCall :=
  [mkStyleCall "mesh-borders" (StyleObject red) None;
   mkStyleCall "mesh-borders" (StyleObject blue) None].

End Samples.

(** ** More of the component, and the demo application

    [src/ui/choropleth/demo/app.jsx] keeps the layers and the selected
    locations in its state and renders a choropleth, inside a responsive
    container, with the visible layers. *)

Section Demo.
Context `{E : Env}.

(** The key [renderLayers] gives to the element of a layer,
    [`${layer.type}-${layer.name}`]. *)
Definition layer_key (layer : Layer) : string :=
  type_name (type layer) +:+ "-" +:+ name layer.

(** What [renderLayers] returns for one layer, when it returns. *)
Definition rendered_as (layer : Layer) (el : option Element) : Prop :=
  match el with
  | None => visible layer = false
  | Some e => visible layer = true ∧ element_key e = layer_key layer
  end.

(** A visible feature layer whose geometry is not in the cache. *)
Definition uncached_feature (c : Choropleth) (layer : Layer) : Prop :=
  visible layer = true ∧ type layer = feature
  ∧ cache_feature (cache (state c)) !! name layer = None.

(** What holds of a component from its construction on: the base scale is
    the one fitted to the props and the bounds, the bounds are those of the
    cache, the path generator is the one of the scale, the translate and
    the clip extent, and the clip extent is the padded viewport. *)
Definition consistent (c : Choropleth) : Prop :=
  scaleBase (state c)
  = calcScale (width (props c)) (height (props c)) (bounds (state c))
  ∧ bounds (state c) = concatAndComputeGeoJSONBounds (cache (state c))
  ∧ pathGenerator (state c)
    = createPathGenerator (scale (state c)) (translate (state c))
                          (clipExtent c)
  ∧ clipExtent c = padded_extent (width (props c)) (height (props c)).

(** A location id handed to the click callback: a number or a string. *)
Inductive LocId : Type :=
  | LocNumber (n : num)
  | LocString (s : string).

#[global] Instance LocId_eq_dec : EqDecision LocId.
Proof. solve_decision. Defined.

(** SameValueZero, the comparison of [Array.prototype.includes]: NaN is
    the same value as NaN. *)
Definition sameValueZero (a b : LocId) : bool := bool_decide (a = b).

(** [a !== b] *)
Definition strict_neq (a b : LocId) : bool :=
  match a, b with
  | LocNumber m, LocNumber n => (m !=? n)%num
  | LocString s, LocString t => negb (bool_decide (s = t))
  | _, _ => true
  end.

(** The id that is the number NaN. *)
Definition nan_id (id : LocId) : Prop :=
  match id with LocNumber NaN => True | _ => False end.

(** [selections.includes(locId)] *)
Definition includes (selections : list LocId) (locId : LocId) : bool :=
  existsb (λ loc, sameValueZero loc locId) selections.

(** The selections that [selectLocation(_, locId)] hands to [setState]. *)
Definition selectLocation (selections : list LocId) (locId : LocId)
  : list LocId :=
  if includes selections locId
  then List.filter (λ loc, strict_neq loc locId) selections
  else selections ++ [locId].

Definition set_visible (layer : Layer) (v : bool) : Layer :=
  mkLayer (name layer) (type layer) (object layer) v (filterFn layer)
          (className layer) (selectedClassName layer) (style layer)
          (selectedStyle layer).

(** The layers of the state after the handler [toggleVisibility(layerName)]
    has run: the array is copied, the first layer of that name is found and
    its [visible] flag is negated in place; without such a layer the state
    is not set.  (The layer objects are shared by the old array and the
    copy; the old array is dropped by [setState].) *)
Definition toggleVisibility (layerName : string) (layers : list Layer)
  : list Layer :=
  match list_find (λ layer, name layer = layerName) layers with
  | Some (i, layer) => <[i := set_visible layer (negb (visible layer))]> layers
  | None => layers
  end.

(** [filter(layers, { visible: true })], the layers prop the demo gives to
    the choropleth. *)
Definition visible_layers (layers : list Layer) : list Layer :=
  List.filter visible layers.

End Demo.

Section MoreSamples.
#[local] Existing Instance spec_env.

(** The component of [p_two_layers] mounted and rendered once. *)
Definition two_layers_rendered : option Choropleth :=
  c ← mount (p_two_layers (StyleObject red));
  snd <$> render c.

(** [p600] with another key field and the same data array. *)
Definition p600_other_key : Props :=
  mkProps (topology p600) (layers p600) (data p600)
          (SpecUtils.FieldName "value") (width p600) (height p600)
          (minZoom p600) (maxZoom p600) (zoomStep p600) (controls p600)
          (passthrough p600).

(** [p_two_layers] with both layers hidden and a new topology object. *)
Definition p_hidden_new_topology : Props :=
  mkProps (mkRef 7 {[ "countries" := ((0, 0), (1, 1))%num ]})
          (mkRef 23 (two_layers false false StyleUndefined))
          sample_data (SpecUtils.FieldName "id") (of_Z 600) (of_Z 400)
          0%num PInf (of_Q (11 # 10)) false ().

(** [p_two_layers] with a new topology object of the same content. *)
Definition p_new_topology : Props :=
  mkProps (mkRef 8 (deref sample_topology))
          (mkRef 20 (two_layers true true StyleUndefined))
          sample_data (SpecUtils.FieldName "id") (of_Z 600) (of_Z 400)
          0%num PInf (of_Q (11 # 10)) false ().

(** [p600] with another data array. *)
Definition p600_new_data : Props :=
  mkProps (topology p600) (layers p600)
          (mkRef 3 [datum "7" "70"]) (SpecUtils.FieldName "id")
          (width p600) (height p600) (minZoom p600) (maxZoom p600)
          (zoomStep p600) (controls p600) (passthrough p600).

(** The mesh layer of [p_two_layers] hidden from the start. *)
Definition p_borders_hidden : Props :=
  sample_props (mkRef 26 (two_layers true false StyleUndefined))
               (of_Z 600) (of_Z 400) 0%num PInf.

(** A life of the component of [p_two_layers]: mounted, given a new
    topology object and zoomed in. *)
Definition topology_replaced : list Event :=
  [Render; SaveSvgRef (Some d3.zoomIdentity); DidMount;
   ReceiveProps p_new_topology; ZoomIn].

(** The mesh layer given a blue style by a props update, then rendered. *)
Definition restyled : list Event :=
  [ReceiveProps (with_layers (p_two_layers (StyleObject red))
                   (mkRef 25 (two_layers true true (StyleObject blue))));
   Render; ZoomIn].

Definition selected : list LocId :=
  [LocNumber (of_Z 102); LocString "USA"; LocNumber (of_Z 6)].

(** The layers of a demo whose second layer has been toggled off, and the
    props its choropleth gets. *)
Definition demo_layers : list Layer :=
  [countries true; countries false; borders true StyleUndefined].

Definition p_demo : Props :=
  sample_props (mkRef 30 (visible_layers demo_layers))
               (of_Z 600) (of_Z 400) 0%num PInf.

End MoreSamples.

(** * Properties *)

(** ** lodash and the numbers *)

Lemma keyBy_foldl_lookup {A : Type} (f : A → string) (l : list A)
    (m : gmap string A) (key : string) :
  foldl (λ result value, <[f value := value]> result) m l !! key
  = match last (filter (λ value, f value = key) l) with
    | Some v => Some v
    | None => m !! key
    end.
Proof.
  revert m. induction l as [|a l IH]; intros m; simpl; [done|].
  rewrite IH, filter_cons. destruct (decide (f a = key)) as [Heq|Hne].
  - destruct (filter _ l) as [|b l'] eqn:Hf; simpl.
    + by rewrite Heq, lookup_insert_eq.
    + destruct (last (b :: l')) eqn:Hl; [done|]. by apply last_None in Hl.
  - destruct (last (filter _ l)); [done|]. by rewrite lookup_insert_ne.
Qed.

Lemma keyBy_lookup {A : Type} (f : A → string) (l : list A) (key : string) :
  lodash.keyBy l f !! key = last (filter (λ value, f value = key) l).
Proof.
  unfold lodash.keyBy. rewrite keyBy_foldl_lookup, lookup_empty.
  by destruct (last _).
Qed.

(** Comparisons of rationals, as propositions. *)

Lemma Qc_eqb_eq (p q : Qc) : Qc_eqb p q = true ↔ p = q.
Proof.
  unfold Qc_eqb. rewrite Qeq_bool_iff. split.
  - apply Qc_is_canon.
  - by intros ->.
Qed.

Lemma Qc_leb_le (p q : Qc) : Qc_leb p q = true ↔ (p <= q)%Q.
Proof. apply Qle_bool_iff. Qed.

Lemma Qc_leb_gt (p q : Qc) : Qc_leb p q = false ↔ (q < p)%Q.
Proof.
  unfold Qc_leb. rewrite <- not_true_iff_false, Qle_bool_iff. split.
  - apply Qnot_le_lt.
  - apply Qlt_not_le.
Qed.

Lemma Qc_eqb_neq (p q : Qc) : Qc_eqb p q = false ↔ p ≠ q.
Proof. rewrite <- not_true_iff_false. by rewrite Qc_eqb_eq. Qed.

(** *** Arithmetic *)

Lemma mul_1_l (a : num) : (1 * a)%num = a.
Proof.
  destruct a as [q| | |]; try reflexivity.
  cbn. f_equal. apply Qcmult_1_l.
Qed.

Lemma add_0_l (a : num) : (0 + a)%num = a.
Proof.
  destruct a as [q| | |]; try reflexivity.
  cbn. f_equal. apply Qcplus_0_l.
Qed.

Lemma mul_comm (a b : num) : (a * b)%num = (b * a)%num.
Proof.
  destruct a, b; try reflexivity. cbn. f_equal. apply Qcmult_comm.
Qed.

(** [zoomIdentity.translate(x, y).scale(s)] is the transform [{s, x, y}]. *)
Lemma identity_translate_scale (tx ty s : num) :
  d3.scale (d3.translate d3.zoomIdentity tx ty) s = d3.mkTransform s tx ty.
Proof.
  unfold d3.scale, d3.translate, d3.zoomIdentity. cbn [d3.k d3.x d3.y].
  by rewrite !mul_1_l, !add_0_l.
Qed.

(** Dividing twice by the scale is dividing by its square. *)
Lemma div_div_square (s : num) : (1 / s / s)%num = (1 / (s * s))%num.
Proof.
  destruct s as [q| | |]; try reflexivity.
  destruct (decide (q = 0%Qc)) as [->|Hq]; [reflexivity|].
  cbn. assert (Hqq : (q * q)%Qc ≠ 0%Qc).
  { intros H0. apply Qcmult_integral in H0. tauto. }
  apply Qc_eqb_neq in Hq as Hq', Hqq as Hqq'. rewrite Hq', Hqq'. cbn.
  rewrite Hq'. f_equal. field. done.
Qed.

Lemma sign_cases (q : Qc) :
  q ≠ 0%Qc →
  (Qc_leb q 0 = true ∧ Qc_leb 0 q = false)
  ∨ (Qc_leb q 0 = false ∧ Qc_leb 0 q = true).
Proof.
  intros Hq. destruct (Qc_leb q 0) eqn:H1, (Qc_leb 0 q) eqn:H2; auto.
  - apply Qc_leb_le in H1, H2. destruct Hq. apply Qc_is_canon.
    by apply Qle_antisym.
  - apply Qc_leb_gt in H1, H2. exfalso. by eapply Qlt_irrefl, Qlt_trans.
Qed.

(** A finite nonzero base scale cancels. *)
Lemma mul_div_cancel_l (q : Qc) (f : num) :
  q ≠ 0%Qc → (Fin q * f / Fin q)%num = f.
Proof.
  intros Hq. apply Qc_eqb_neq in Hq as Hq'.
  destruct f as [a| | |]; unfold JS.mul, JS.div, inf_times, Qc_ltb;
    rewrite ?Hq'; [|destruct (sign_cases q Hq) as [[-> ->]|[-> ->]]..|];
    try reflexivity.
  f_equal. field. done.
Qed.

Lemma double_div_cancel (q : Qc) :
  q ≠ 0%Qc → (of_Z 2 * Fin q / Fin q)%num = of_Z 2.
Proof.
  intros Hq. apply Qc_eqb_neq in Hq as Hq'.
  unfold of_Z, JS.mul, JS.div. rewrite Hq'. f_equal. field. done.
Qed.

(** *** Order *)

Lemma leb_not_nan (a b : num) :
  (a <=? b)%num = true → is_nan a = false ∧ is_nan b = false.
Proof. by destruct a, b. Qed.

Lemma leb_refl (a : num) : is_nan a = false → (a <=? a)%num = true.
Proof.
  destruct a; try done. intros _. cbn. apply Qc_leb_le, Qle_refl.
Qed.

Lemma leb_total (a b : num) :
  is_nan a = false → is_nan b = false →
  (a <=? b)%num = true ∨ (b <=? a)%num = true.
Proof.
  destruct a as [p| | |], b as [q| | |]; cbn; try done; auto.
  intros _ _. destruct (Qc_leb p q) eqn:H; [by left|right].
  apply Qc_leb_gt in H. by apply Qc_leb_le, Qlt_le_weak.
Qed.

(** The clamp of d3-zoom lands in a well-formed extent. *)
Lemma clamp_in_extent (z : d3.Zoom) (v : num) :
  ((d3.scaleExtent z).1 <=? (d3.scaleExtent z).2)%num = true →
  is_nan v = false →
  ((d3.scaleExtent z).1 <=? d3.clamp z v)%num = true
  ∧ (d3.clamp z v <=? (d3.scaleExtent z).2)%num = true.
Proof.
  unfold d3.clamp. destruct (d3.scaleExtent z) as [k0 k1]. cbn [fst snd].
  intros Hle Hv. destruct (leb_not_nan _ _ Hle) as [H0 H1].
  unfold JS.min. rewrite H1, Hv. cbn [orb].
  destruct (leb_total k1 v H1 Hv) as [Hkv|Hvk].
  - rewrite Hkv. unfold JS.max. rewrite H0, H1, Hle. cbn [orb].
    split; [done|by apply leb_refl].
  - destruct (k1 <=? v)%num eqn:Hkv.
    + unfold JS.max. rewrite H0, H1, Hle. cbn [orb].
      split; [done|by apply leb_refl].
    + unfold JS.max. rewrite H0, Hv. cbn [orb].
      destruct (k0 <=? v)%num eqn:H0v; [done|].
      split; [by apply leb_refl|done].
Qed.

(** A product with a finite nonzero factor is a number when the other
    factor is. *)
Lemma mul_finite_not_nan (a : num) (q : Qc) :
  q ≠ 0%Qc → is_nan a = false → is_nan (a * Fin q)%num = false.
Proof.
  intros Hq Ha. apply Qc_eqb_neq in Hq.
  destruct a; try done; cbn; unfold inf_times; rewrite Hq;
    by destruct (Qc_ltb 0 q).
Qed.

Lemma inverse_finite (q : Qc) :
  q ≠ 0%Qc → ∃ r : Qc, (1 / Fin q)%num = Fin r ∧ r ≠ 0%Qc.
Proof.
  intros Hq. apply Qc_eqb_neq in Hq as Hq'. exists (1 / q)%Qc. split.
  - cbn. by rewrite Hq'.
  - intros H. apply Hq. 
    assert (q * (1 / q) = 1)%Qc as H1 by (field; done).
    rewrite H, Qcmult_0_r in H1. discriminate H1.
Qed.

Section Properties.
Context `{E : Env}.

(** *** Processed data *)

(** C10. For every data array and key field, [processData] maps a key to
    the last datum of the array, in array order, that resolves to this key,
    and to nothing when no datum does: every datum is stored under its
    resolved key unless a later datum of the same key has replaced it. *)
Theorem processData_keeps_last (data : list Datum) (keyField : KeyField)
    (key : string) :
  processData data keyField !! key
  = last (filter (λ datum, propResolver datum keyField = key) data).
Proof. apply keyBy_lookup. Qed.

(** *** What a transition leaves alone *)

Lemma zoom_transform_Some (c c' : Choropleth) (t : d3.Transform) :
  zoom_transform c t = Some c' →
  is_Some (_svgNode c)
  ∧ c' = (let c1 := mkChoropleth (props c) (state c) (clipExtent c) (zoom c)
                      (zoom_listener c) (Some t) (meshStyleCache c) in
          if zoom_listener c then zoomEvent c1 else c1).
Proof.
  unfold zoom_transform. destruct (_svgNode c); [|done].
  intros [= <-]. eauto.
Qed.

Lemma zoom_transform_zoom (c c' : Choropleth) (t : d3.Transform) :
  zoom_transform c t = Some c' → zoom c' = zoom c.
Proof.
  intros [_ ->]%zoom_transform_Some. cbn. by destruct (zoom_listener c).
Qed.

Lemma zoom_transform_props (c c' : Choropleth) (t : d3.Transform) :
  zoom_transform c t = Some c' → props c' = props c.
Proof.
  intros [_ ->]%zoom_transform_Some. cbn. by destruct (zoom_listener c).
Qed.

Lemma receive_view_zoom (c c' : Choropleth) (nextProps : Props)
    (u u' : StateUpdate) :
  receive_view c nextProps u = Some (c', u') → zoom c' = zoom c.
Proof.
  unfold receive_view. case_match; [|by intros [= <- _]].
  intros Hr. apply bind_Some in Hr as (c2 & Hz & [= <- _]).
  by apply zoom_transform_zoom in Hz.
Qed.

Lemma componentWillReceiveProps_zoom (c c' : Choropleth) (nextProps : Props) :
  componentWillReceiveProps c nextProps = Some c' → zoom c' = zoom c.
Proof.
  unfold componentWillReceiveProps. intros H.
  apply bind_Some in H as (u1 & _ & H1).
  apply bind_Some in H1 as ([c2 u2] & H2 & [= <-]). cbn.
  by apply receive_view_zoom in H2.
Qed.

Lemma step_zoom (c c' : Choropleth) (e : Event) :
  step c e = Some c' → zoom c' = zoom c.
Proof.
  destruct e; cbn.
  - by intros [= <-].
  - unfold componentDidMount. destruct (translate (state c)).
    intros H. by apply zoom_transform_zoom in H.
  - apply componentWillReceiveProps_zoom.
  - unfold gesture. intros H. by apply zoom_transform_zoom in H.
  - unfold zoomIn, zoom_scaleBy. intros H.
    apply bind_Some in H as (t0 & _ & Hz). by apply zoom_transform_zoom in Hz.
  - unfold zoomOut, zoom_scaleBy. intros H.
    apply bind_Some in H as (t0 & _ & Hz). by apply zoom_transform_zoom in Hz.
  - unfold zoomReset. destruct (calcTranslate _ _ _ _ _).
    intros H. by apply zoom_transform_zoom in H.
  - unfold render. intros H. apply fmap_Some in H as ([r c1] & Hr & ->).
    apply bind_Some in Hr as ([els memo] & _ & [= _ <-]). done.
Qed.

Lemma run_zoom (es : list Event) (c c' : Choropleth) :
  run c es = Some c' → zoom c' = zoom c.
Proof.
  revert c. induction es as [|e es IH]; intros c; cbn.
  - by intros [= <-].
  - intros H. apply bind_Some in H as (c1 & H1 & H2).
    rewrite (IH _ H2). by apply step_zoom in H1.
Qed.

(** C1. The constructor sets the scale extent of the zoom behaviour to
    [[max(scaleBase, minZoom), max(scaleBase, maxZoom)]], where [scaleBase]
    is the scale fitted to the first bounds and the size of the
    construction props; whatever happens to the component afterwards
    (mounting, props updates with a resize or new bounds, gestures, zoom
    buttons, renders), the extent is still the one of the construction. *)
Theorem scaleExtent_fixed_at_construction (p : Props) (c c' : Choropleth)
    (es : list Event) :
  constructor p = Some c →
  run c es = Some c' →
  scaleBase (state c) = calcScale (width p) (height p) (bounds (state c))
  ∧ d3.scaleExtent (zoom c)
    = (JS.max (scaleBase (state c)) (minZoom p),
       JS.max (scaleBase (state c)) (maxZoom p))
  ∧ d3.scaleExtent (zoom c') = d3.scaleExtent (zoom c).
Proof.
  intros Hc Hrun. apply run_zoom in Hrun. rewrite Hrun.
  unfold constructor in Hc. apply bind_Some in Hc as (ex & _ & [= <-]).
  done.
Qed.

(** C7. [zoomEvent] writes the scale, the translate and the path generator
    of the state, read from the current zoom transform, and nothing else:
    the geometry cache, the bounds, the base scale and the processed data
    are those of before, and so are the props and the instance fields. *)
Theorem zoomEvent_frame (c : Choropleth) :
  let t := currentZoomTransform c in
  let c' := zoomEvent c in
  scale (state c') = d3.k t
  ∧ translate (state c') = (d3.x t, d3.y t)
  ∧ pathGenerator (state c')
    = createPathGenerator (d3.k t) (d3.x t, d3.y t) (clipExtent c)
  ∧ cache (state c') = cache (state c)
  ∧ bounds (state c') = bounds (state c)
  ∧ scaleBase (state c') = scaleBase (state c)
  ∧ processedData (state c') = processedData (state c)
  ∧ props c' = props c
  ∧ clipExtent c' = clipExtent c
  ∧ zoom c' = zoom c
  ∧ _svgNode c' = _svgNode c
  ∧ meshStyleCache c' = meshStyleCache c.
Proof. cbn. repeat split. Qed.

(** The same for a whole gesture, which stores the transform on the node
    before [zoomEvent] runs. *)
Lemma gesture_frame (c c' : Choropleth) (t : d3.Transform) :
  gesture c t = Some c' →
  cache (state c') = cache (state c)
  ∧ bounds (state c') = bounds (state c)
  ∧ scaleBase (state c') = scaleBase (state c)
  ∧ processedData (state c') = processedData (state c)
  ∧ props c' = props c
  ∧ zoom c' = zoom c.
Proof.
  unfold gesture. intros [_ ->]%zoom_transform_Some. cbn.
  by destruct (zoom_listener c).
Qed.

(** *** Props updates *)

Lemma zoom_transform_state (c c' : Choropleth) (t : d3.Transform) :
  zoom_transform c t = Some c' →
  bounds (state c') = bounds (state c)
  ∧ scaleBase (state c') = scaleBase (state c)
  ∧ cache (state c') = cache (state c)
  ∧ processedData (state c') = processedData (state c).
Proof.
  intros [_ ->]%zoom_transform_Some. cbn. by destruct (zoom_listener c).
Qed.

(** The state after a props update that resizes the component. *)
Lemma componentWillReceiveProps_resized (c c' : Choropleth)
    (nextProps : Props) :
  componentWillReceiveProps c nextProps = Some c' →
  (width nextProps !=? width (props c))%num = true
  ∨ (height nextProps !=? height (props c))%num = true →
  let scaleBase' :=
    calcScale (width nextProps) (height nextProps) (bounds (state c')) in
  scaleBase (state c') = scaleBase'
  ∧ scale (state c')
    = (scaleBase' * (scale (state c) / scaleBase (state c)))%num.
Proof.
  intros H Hsize. unfold componentWillReceiveProps in H.
  apply bind_Some in H as (u1 & _ & H1).
  apply bind_Some in H1 as ([c2 u2] & H2 & [= <-]).
  unfold receive_view in H2.
  assert ((width nextProps !=? width (props c))%num
          || (height nextProps !=? height (props c))%num
          || bool_decide (is_Some (new_bounds u1)) = true) as Hif.
  { destruct Hsize as [-> | ->]; [done|]. by rewrite orb_true_r. }
  rewrite Hif in H2. apply bind_Some in H2 as (c3 & Hz & [= <- <-]).
  apply zoom_transform_state in Hz as (Hb & _). cbn in Hb.
  unfold receive_data. cbn. case_match; cbn; rewrite Hb; done.
Qed.


(** *** The zoom buttons *)

Lemma render_Some (c c1 : Choropleth) :
  snd <$> render c = Some c1 →
  props c1 = props c ∧ state c1 = state c ∧ zoom c1 = zoom c
  ∧ zoom_listener c1 = zoom_listener c ∧ _svgNode c1 = _svgNode c
  ∧ clipExtent c1 = clipExtent c.
Proof.
  unfold render. intros H. apply fmap_Some in H as ([r c2] & Hr & ->).
  apply bind_Some in Hr as ([els memo] & _ & [= _ <-]). done.
Qed.

Lemma constructor_Some (p : Props) (c : Choropleth) :
  constructor p = Some c →
  props c = p
  ∧ scale (state c) = scaleBase (state c)
  ∧ scaleBase (state c) = calcScale (width p) (height p) (bounds (state c))
  ∧ d3.scaleExtent (zoom c)
    = (JS.max (scaleBase (state c)) (minZoom p),
       JS.max (scaleBase (state c)) (maxZoom p))
  ∧ zoom_listener c = false
  ∧ _svgNode c = None
  ∧ meshStyleCache c = ∅.
Proof.
  unfold constructor. intros H. apply bind_Some in H as (ex & _ & [= <-]).
  done.
Qed.

Lemma mount_Some (p : Props) (c : Choropleth) :
  mount p = Some c →
  zoom_ready p (zoom c) c
  ∧ scale (state c) = scaleBase (state c)
  ∧ d3.scaleExtent (zoom c)
    = (JS.max (scaleBase (state c)) (minZoom p),
       JS.max (scaleBase (state c)) (maxZoom p)).
Proof.
  unfold mount. intros H. apply bind_Some in H as (c0 & Hc & Hrun).
  apply constructor_Some in Hc as (Hp0 & Hs0 & _ & Hz0 & _).
  cbn [run step] in Hrun.
  apply bind_Some in Hrun as (c1 & Hr & Hrun).
  apply render_Some in Hr as (Hp & Hs & Hz & _).
  rewrite <- Hs in Hs0. rewrite <- Hs, <- Hz in Hz0. rewrite <- Hp in Hp0.
  clear Hp Hs Hz c0.
  apply bind_Some in Hrun as (c2 & [= <-] & Hrun).
  apply bind_Some in Hrun as (c3 & Hm & [= <-]).
  unfold componentDidMount, saveSvgRef in Hm. cbn in Hm.
  destruct (translate (state c1)) as [tx ty].
  rewrite identity_translate_scale in Hm. cbn in Hm.
  injection Hm as <-. unfold zoom_ready. cbn. rewrite Hs0.
  repeat split; eauto.
Qed.

Lemma zoom_scaleBy_ready (p : Props) (z : d3.Zoom) (c : Choropleth)
    (factor : num) :
  zoom_ready p z c →
  ∃ c', zoom_scaleBy c factor = Some c'
    ∧ zoom_ready p z c'
    ∧ scale (state c') = d3.clamp z (scale (state c) * factor)%num.
Proof.
  intros (Hp & Hz & Hl & t & Ht & Hk). unfold zoom_scaleBy, zoom_transform.
  rewrite Ht. cbn. rewrite Hl. eexists. split; [reflexivity|].
  unfold zoom_ready. cbn. rewrite Hz, Hk. repeat split; try done.
  eexists. split; [reflexivity|]. unfold d3.scaleBy. cbn. by rewrite Hk.
Qed.

Lemma max_not_nan_l (a b : num) :
  is_nan (JS.max a b) = false → is_nan a = false.
Proof. unfold JS.max. by destruct a. Qed.

Lemma leb_antisym (a b : num) :
  (a <=? b)%num = true → (b <=? a)%num = true → a = b.
Proof.
  destruct a as [p| | |], b as [q| | |]; cbn; try done.
  rewrite !Qc_leb_le. intros H1 H2. f_equal. apply Qc_is_canon.
  by apply Qle_antisym.
Qed.

Lemma max_eq_l (a b : num) : (b <=? a)%num = true → JS.max a b = a.
Proof.
  intros H. unfold JS.max. destruct (leb_not_nan _ _ H) as [-> ->]. cbn.
  destruct (a <=? b)%num eqn:Hab; [|done]. by apply leb_antisym.
Qed.

(** One press of a zoom button brings the scale into the extent. *)
Lemma zoom_button_in_extent (p : Props) (z : d3.Zoom) (c : Choropleth)
    (e : Event) (s : Qc) :
  zoom_ready p z c →
  zoomStep p = Fin s → s ≠ 0%Qc →
  ((d3.scaleExtent z).1 <=? (d3.scaleExtent z).2)%num = true →
  is_nan (scale (state c)) = false →
  e = ZoomIn ∨ e = ZoomOut →
  ∃ c', step c e = Some c' ∧ zoom_ready p z c'
    ∧ in_extent z (scale (state c')).
Proof.
  intros Hready Hstep Hs Hext Hnan He.
  assert (∃ r : Qc, r ≠ 0%Qc ∧
            step c e = zoom_scaleBy c (Fin r)) as (r & Hr & ->).
  { destruct Hready as (Hp & _). destruct He as [-> | ->]; cbn.
    - exists s. unfold zoomIn. by rewrite Hp, Hstep.
    - destruct (inverse_finite s Hs) as (r & Hinv & Hr). exists r.
      unfold zoomOut. by rewrite Hp, Hstep, Hinv. }
  destruct (zoom_scaleBy_ready p z c (Fin r) Hready) as (c' & Hrun & Hr' & Hk).
  exists c'. split; [done|]. split; [done|]. unfold in_extent. rewrite Hk.
  apply clamp_in_extent; auto using mul_finite_not_nan.
Qed.

Lemma zoom_buttons_keep_extent (p : Props) (z : d3.Zoom) (s : Qc)
    (calls : list Event) (c : Choropleth) :
  zoom_ready p z c →
  zoomStep p = Fin s → s ≠ 0%Qc →
  ((d3.scaleExtent z).1 <=? (d3.scaleExtent z).2)%num = true →
  in_extent z (scale (state c)) →
  Forall (λ e, e = ZoomIn ∨ e = ZoomOut) calls →
  ∃ c', run c calls = Some c' ∧ zoom_ready p z c'
    ∧ in_extent z (scale (state c')).
Proof.
  intros Hready Hstep Hs Hext Hin Hcalls. revert c Hready Hin.
  induction Hcalls as [|e calls He _ IH]; intros c Hready Hin.
  - exists c. by cbn.
  - destruct Hin as [Hlo _]. apply leb_not_nan in Hlo as [_ Hnan].
    destruct (zoom_button_in_extent p z c e s) as (c1 & H1 & Hr1 & Hin1);
      try done.
    destruct (IH c1 Hr1 Hin1) as (c' & Hrun & Hr' & Hin').
    exists c'. cbn. by rewrite H1.
Qed.

(** C3, amended.  On a mounted component whose scale extent is well formed
    (its minimum is at most its maximum) and whose zoom step is finite and
    not zero, every sequence of [zoomIn] and [zoomOut] calls runs, leaves
    the extent as it was and, if it has at least one call or if minZoom is
    at most the base scale, ends with the scale inside the extent. *)
Theorem zoom_buttons_stay_in_extent (p : Props) (c : Choropleth)
    (calls : list Event) (s : Qc) :
  mount p = Some c →
  Forall (λ e, e = ZoomIn ∨ e = ZoomOut) calls →
  zoomStep p = Fin s → s ≠ 0%Qc →
  ((d3.scaleExtent (zoom c)).1 <=? (d3.scaleExtent (zoom c)).2)%num = true →
  calls ≠ [] ∨ (minZoom p <=? scaleBase (state c))%num = true →
  ∃ c', run c calls = Some c'
    ∧ d3.scaleExtent (zoom c') = d3.scaleExtent (zoom c)
    ∧ ((d3.scaleExtent (zoom c)).1 <=? scale (state c'))%num = true
    ∧ (scale (state c') <=? (d3.scaleExtent (zoom c)).2)%num = true.
Proof.
  intros Hmount Hcalls Hstep Hs Hext Hstart.
  destruct (mount_Some p c Hmount) as (Hready & Hscale & Hz).
  assert (is_nan (scale (state c)) = false) as Hnan.
  { apply leb_not_nan in Hext as [H0 _]. rewrite Hz in H0. cbn in H0.
    rewrite Hscale. by apply max_not_nan_l in H0. }
  assert (∃ c', run c calls = Some c' ∧ zoom_ready p (zoom c) c'
            ∧ in_extent (zoom c) (scale (state c'))) as (c' & Hrun & Hr & Hin).
  { destruct Hcalls as [|e calls He Hcalls].
    - destruct Hstart as [|Hmin]; [done|]. exists c.
      split; [done|]. split; [done|]. split.
      + rewrite Hz, Hscale. cbn. rewrite max_eq_l by done.
        apply leb_refl. by rewrite <- Hscale.
      + rewrite Hscale, Hz in *. cbn in *. by rewrite max_eq_l in Hext.
    - destruct (zoom_button_in_extent p (zoom c) c e s)
        as (c1 & H1 & Hr1 & Hin1); try done.
      destruct (zoom_buttons_keep_extent p (zoom c) s calls c1)
        as (c' & Hrun & Hr' & Hin'); try done.
      exists c'. cbn. by rewrite H1. }
  exists c'. destruct Hin as [Hlo Hhi].
  repeat split; try done. by rewrite (run_zoom _ _ _ Hrun).
Qed.

(** *** The path generator *)


(** *** Mesh styles *)

Lemma style_calls_lookup (calls : list StyleCall) (memo : gmap string Style)
    (i : nat) (call : StyleCall) :
  calls !! i = Some call →
  ∃ first,
    List.find (λ c, bool_decide (call_key c = call_key call)) calls
    = Some first
    ∧ style_calls memo calls !! i
      = Some (default (own_style first) (memo !! call_key call)).
Proof.
  revert memo i. induction calls as [|c0 calls IH]; intros memo i Hi; [done|].
  cbn [style_calls List.find].
  unfold calcMeshLayerStyle_memoized, lodash.memoize.
  destruct i as [|i]; cbn in Hi.
  - injection Hi as ->. rewrite bool_decide_eq_true_2 by done.
    exists call. split; [done|]. by destruct (memo !! call_key call).
  - destruct (memo !! call_key c0) as [r0|] eqn:Hm; cbn [lookup list_lookup].
    + destruct (IH memo i Hi) as (first & Hfind & Hres).
      case_bool_decide as Hkey.
      * exists c0. split; [done|]. etrans; [exact Hres|].
        by rewrite <- Hkey, Hm.
      * exists first. split; [done|]. exact Hres.
    + destruct (IH (<[call_key c0 := calcMeshLayerStyle (call_key c0)
                        (call_style c0) (call_feature c0)]> memo) i Hi)
        as (first & Hfind & Hres).
      case_bool_decide as Hkey.
      * exists c0. split; [done|]. etrans; [exact Hres|].
        by rewrite <- Hkey, lookup_insert_eq, Hm.
      * exists first. split; [done|]. etrans; [exact Hres|].
        by rewrite lookup_insert_ne.
Qed.

(** C5, amended.  The memoized [calcMeshLayerStyle] keeps one style per
    layer key: among the calls made since the construction, each call
    returns the style computed from the style and feature arguments of the
    first call with the same key, whatever its own style and feature
    arguments are. *)
Theorem mesh_style_memoized_by_key (calls : list StyleCall) (i : nat)
    (call : StyleCall) :
  calls !! i = Some call →
  ∃ first,
    List.find (λ c, bool_decide (call_key c = call_key call)) calls
    = Some first
    ∧ style_calls ∅ calls !! i = Some (own_style first).
Proof.
  intros Hi. destruct (style_calls_lookup calls ∅ i call Hi)
    as (first & Hfind & Hres).
  exists first. by rewrite Hres, lookup_empty.
Qed.


(** *** Sizes *)

Lemma renderLayers_from_size (c : Choropleth) (w h : num)
    (ls : list Layer) (memo : gmap string Style) :
  renderLayers_from
    (mkChoropleth (with_size (props c) w h) (state c) (clipExtent c) (zoom c)
                  (zoom_listener c) (_svgNode c) (meshStyleCache c)) memo ls
  = renderLayers_from c memo ls.
Proof.
  revert memo. induction ls as [|l ls IH]; intros memo; [done|].
  cbn [renderLayers_from].
  assert (renderLayer
            (mkChoropleth (with_size (props c) w h) (state c) (clipExtent c)
               (zoom c) (zoom_listener c) (_svgNode c) (meshStyleCache c))
            memo l
          = renderLayer c memo l) as -> by done.
  destruct (renderLayer c memo l) as [[el memo1]|]; [|done]. cbn.
  by rewrite IH.
Qed.

(** C9, amended.  While the measured width or height is zero,
    [ResponsiveContainer] renders none of its children, so a choropleth
    inside it is not rendered at all.  The choropleth itself has no such
    guard: what [renderLayers] returns does not depend on the width and
    height props. *)
Theorem zero_size_renders_no_children (children : list (option Props))
    (w h : num) (c : Choropleth) :
  w = 0%num ∨ h = 0%num →
  ResponsiveContainer_children with_size children w h = None
  ∧ renderLayers
      (mkChoropleth (with_size (props c) w h) (state c) (clipExtent c)
                    (zoom c) (zoom_listener c) (_svgNode c)
                    (meshStyleCache c))
    = renderLayers c.
Proof.
  intros Hzero. split.
  - unfold ResponsiveContainer_children. by destruct Hzero as [-> | ->];
      [|rewrite orb_true_r].
  - unfold renderLayers. cbn. apply renderLayers_from_size.
Qed.

(** *** The geometry cache *)

Lemma extract_into_feature (topo : Topology) (ls : list Layer)
    (acc r : Cache Geometry) (n : string) :
  extract_into topo ls acc = Some r →
  Forall (λ l, ¬ (type l = feature ∧ name l = n)) ls →
  cache_feature r !! n = cache_feature acc !! n.
Proof.
  intros Hex Hls. revert acc Hex.
  induction Hls as [|l ls Hl _ IH]; intros acc Hex; cbn in Hex.
  - by injection Hex as <-.
  - apply bind_Some in Hex as (g & _ & Hex). rewrite (IH _ Hex).
    unfold cache_insert. destruct (type l) eqn:Ht; cbn; [|done].
    apply lookup_insert_ne. intros Hn. by apply Hl.
Qed.

Lemma uncachedLayers_elem (c : Choropleth) (nextProps : Props) (l : Layer) :
  same_ref (topology nextProps) (topology (props c)) = true →
  l ∈ uncachedLayers c nextProps →
  visible l = true
  ∧ (type l = mesh ∨ cache_at (cache (state c)) (type l) !! name l = None).
Proof.
  intros Href Hl. unfold uncachedLayers, starting_cache in Hl.
  rewrite Href in Hl. cbn in Hl.
  apply list_elem_of_In, filter_In in Hl as [Hl Hun].
  apply filter_In in Hl as [_ Hvis]. split; [done|].
  apply orb_true_iff in Hun as [Hmesh|Hhas].
  - left. by apply bool_decide_eq_true in Hmesh.
  - right. apply negb_true_iff, bool_decide_eq_false in Hhas.
    by apply eq_None_not_Some.
Qed.

(** A feature layer that is in the cache is not handed to
    [extractGeoJSON] while the topology stays the same object. *)
Lemma cached_feature_not_extracted (c : Choropleth) (nextProps : Props)
    (l : Layer) (g : Geometry) :
  same_ref (topology nextProps) (topology (props c)) = true →
  type l = feature →
  cache_feature (cache (state c)) !! name l = Some g →
  l ∉ extracted_layers c nextProps.
Proof.
  intros Href Ht Hg Hl. unfold extracted_layers in Hl.
  case_match; [|by apply not_elem_of_nil in Hl].
  apply uncachedLayers_elem in Hl as [_ [Hm|Hnone]]; [congruence| |done].
  rewrite Ht in Hnone. cbn in Hnone. congruence.
Qed.

Lemma receive_geometry_Some (c : Choropleth) (nextProps : Props)
    (u : StateUpdate) :
  receive_geometry c nextProps = Some u →
  new_scale u = None ∧ new_scaleBase u = None ∧ new_translate u = None
  ∧ new_pathGenerator u = None ∧ new_processedData u = None
  ∧ (u = no_update
     ∨ ∃ extracted cache',
         extractGeoJSON
           (if same_ref (topology nextProps) (topology (props c))
            then deref (topology nextProps)
            else presimplify (deref (topology nextProps)))
           (uncachedLayers c nextProps) = Some extracted
         ∧ cache' = quickMerge (default empty_cache (starting_cache c nextProps))
                               extracted
         ∧ new_cache u = Some cache'
         ∧ new_bounds u
           = if lodash.isEqual (concatAndComputeGeoJSONBounds cache')
                               (bounds (state c))
             then None else Some (concatAndComputeGeoJSONBounds cache')).
Proof.
  unfold receive_geometry. case_match; [|intros [= <-]; cbn; tauto].
  destruct (uncachedLayers c nextProps) as [|l0 ls0] eqn:Hun;
    [intros [= <-]; cbn; tauto|].
  intros Hu. apply bind_Some in Hu as (extracted & Hex & [= <-]). cbn.
  repeat split; try done. right. eauto 10.
Qed.

(** [extracted_layers] is what the update hands to [extractGeoJSON]:
    without such layers no call is made and nothing of the state is
    replaced. *)
Lemma receive_geometry_no_call (c : Choropleth) (nextProps : Props) :
  extracted_layers c nextProps = [] →
  receive_geometry c nextProps = Some no_update.
Proof.
  unfold extracted_layers, receive_geometry. case_match; [|done].
  by intros ->.
Qed.

Lemma receive_geometry_feature (c : Choropleth) (nextProps : Props)
    (u : StateUpdate) (n : string) (g : Geometry) :
  receive_geometry c nextProps = Some u →
  same_ref (topology nextProps) (topology (props c)) = true →
  cache_feature (cache (state c)) !! n = Some g →
  cache_feature (default (cache (state c)) (new_cache u)) !! n = Some g.
Proof.
  intros Hu Href Hg.
  destruct (receive_geometry_Some c nextProps u Hu)
    as (_ & _ & _ & _ & _ & [->|(ex & cache' & Hex & -> & -> & _)]); [done|].
  unfold starting_cache. rewrite Href. cbn.
  rewrite lookup_union_r; [done|].
  unfold extractGeoJSON in Hex.
  rewrite (extract_into_feature _ _ _ _ n Hex); [done|].
  apply Forall_forall. intros l Hl [Ht Hn].
  apply uncachedLayers_elem in Hl as [_ [Hm|Hnone]]; [congruence| |done].
  rewrite Ht, Hn in Hnone. cbn in Hnone. congruence.
Qed.

Lemma receive_view_Some (c c2 : Choropleth) (nextProps : Props)
    (u u2 : StateUpdate) :
  receive_view c nextProps u = Some (c2, u2) →
  new_cache u2 = new_cache u ∧ new_bounds u2 = new_bounds u
  ∧ new_processedData u2 = new_processedData u
  ∧ cache (state c2) = cache (state c)
  ∧ bounds (state c2) = bounds (state c)
  ∧ processedData (state c2) = processedData (state c)
  ∧ props c2 = props c
  ∧ meshStyleCache c2 = meshStyleCache c.
Proof.
  unfold receive_view. case_match; [|by intros [= <- <-]].
  intros Hr. apply bind_Some in Hr as (c3 & Hz & [= <- <-]). cbn.
  apply zoom_transform_Some in Hz as [_ ->]. cbn.
  by destruct (zoom_listener c).
Qed.

Lemma componentWillReceiveProps_feature (c c' : Choropleth)
    (nextProps : Props) (n : string) (g : Geometry) :
  componentWillReceiveProps c nextProps = Some c' →
  same_ref (topology nextProps) (topology (props c)) = true →
  cache_feature (cache (state c)) !! n = Some g →
  cache_feature (cache (state c')) !! n = Some g.
Proof.
  intros H Href Hg. unfold componentWillReceiveProps in H.
  apply bind_Some in H as (u1 & Hu1 & H1).
  apply bind_Some in H1 as ([c2 u2] & H2 & [= <-]).
  apply receive_view_Some in H2 as (Hc & _ & _ & Hs & _).
  pose proof (receive_geometry_feature c nextProps u1 n g Hu1 Href Hg) as Hf.
  unfold receive_data. case_match; cbn; by rewrite Hc, Hs.
Qed.

(** A props update that changes the layers only, on a component of proper
    size whose cached geometry keeps its bounds, changes nothing of the
    state but the cache. *)
Lemma componentWillReceiveProps_layers_only (c c' : Choropleth)
    (ls : Ref (list Layer)) :
  componentWillReceiveProps c (with_layers (props c) ls) = Some c' →
  is_nan (width (props c)) = false →
  is_nan (height (props c)) = false →
  concatAndComputeGeoJSONBounds (cache (state c')) = bounds (state c) →
  props c' = with_layers (props c) ls
  ∧ bounds (state c') = bounds (state c)
  ∧ pathGenerator (state c') = pathGenerator (state c)
  ∧ processedData (state c') = processedData (state c).
Proof.
  intros H Hw Hh Hb. unfold componentWillReceiveProps in H.
  apply bind_Some in H as (u1 & Hu1 & H1).
  apply bind_Some in H1 as ([c2 u2] & H2 & [= <-]). cbn in Hb |- *.
  assert (same_ref (data (props c)) (data (props c)) = true) as Hdata
    by (unfold same_ref; by apply bool_decide_eq_true_2).
  assert (new_bounds u1 = None) as Hnb.
  { destruct (receive_geometry_Some c _ u1 Hu1)
      as (_ & _ & _ & _ & _ & [->|(ex & cache' & _ & Hc' & Hnc & ->)]);
      [done|].
    pose proof H2 as H2'.
    apply receive_view_Some in H2' as (Hc2 & _ & _ & Hs2 & _ & _ & Hp2 & _).
    unfold receive_data in Hb. rewrite Hp2 in Hb. cbn in Hb.
    rewrite Hdata in Hb. cbn in Hb. rewrite Hc2, Hnc in Hb. cbn in Hb.
    subst cache'. unfold lodash.isEqual. by rewrite bool_decide_eq_true_2. }
  assert ((width (props c) !=? width (props c))%num = false) as Hwne.
  { unfold JS.neqb. destruct (width (props c)); try done. cbn.
    apply negb_false_iff. by apply Qc_eqb_eq. }
  assert ((height (props c) !=? height (props c))%num = false) as Hhne.
  { unfold JS.neqb. destruct (height (props c)); try done. cbn.
    apply negb_false_iff. by apply Qc_eqb_eq. }
  unfold receive_view in H2. cbn [width height with_layers] in H2.
  rewrite Hwne, Hhne, Hnb in H2. cbn in H2. injection H2 as <- <-.
  destruct (receive_geometry_Some c _ u1 Hu1) as (_ & _ & _ & Hpg & Hpd & _).
  unfold receive_data. cbn. rewrite Hdata. cbn.
  by rewrite Hnb, Hpg, Hpd.
Qed.

(** A visible mesh layer is handed to [extractGeoJSON] by every update of
    the layers, cached or not. *)
Lemma visible_mesh_extracted (c : Choropleth) (nextProps : Props)
    (m : Layer) :
  same_ref (layers nextProps) (layers (props c)) = false →
  m ∈ deref (layers nextProps) →
  type m = mesh →
  visible m = true →
  m ∈ extracted_layers c nextProps.
Proof.
  intros Href Hm Ht Hv. unfold extracted_layers, uncachedLayers.
  rewrite Href, orb_true_r. apply list_elem_of_In, filter_In. split.
  - apply filter_In. split; [by apply list_elem_of_In|done].
  - by rewrite Ht.
Qed.

(** C4, amended.  While the topology stays the same object, a feature
    layer whose geometry is in the cache is never handed to geometry
    extraction by a props update and its cached geometry stays: after an
    update of the layers in which it is hidden and a second one in which it
    is visible again, it is rendered from the geometry cached before, and,
    if the sizes are numbers and the bounds of the cached geometry stay the
    same, the element rendered for it is the one of before the toggle.  A
    mesh layer, in contrast, is extracted again by every update of the
    layers in which it is visible. *)
Theorem feature_layer_toggle_reuses_cache (c0 c1 c2 : Choropleth)
    (ls1 ls2 : Ref (list Layer)) (layer : Layer) (g : Geometry)
    (memo : gmap string Style) :
  type layer = feature →
  cache_feature (cache (state c0)) !! name layer = Some g →
  componentWillReceiveProps c0 (with_layers (props c0) ls1) = Some c1 →
  componentWillReceiveProps c1 (with_layers (props c0) ls2) = Some c2 →
  (layer ∉ extracted_layers c0 (with_layers (props c0) ls1))
  ∧ (layer ∉ extracted_layers c1 (with_layers (props c0) ls2))
  ∧ cache_feature (cache (state c1)) !! name layer = Some g
  ∧ cache_feature (cache (state c2)) !! name layer = Some g
  ∧ (is_nan (width (props c0)) = false →
     is_nan (height (props c0)) = false →
     concatAndComputeGeoJSONBounds (cache (state c1)) = bounds (state c0) →
     concatAndComputeGeoJSONBounds (cache (state c2)) = bounds (state c0) →
     renderLayer c2 memo layer = renderLayer c0 memo layer)
  ∧ (∀ (c : Choropleth) (nextProps : Props) (m : Layer),
       same_ref (layers nextProps) (layers (props c)) = false →
       m ∈ deref (layers nextProps) →
       type m = mesh →
       visible m = true →
       m ∈ extracted_layers c nextProps).
Proof.
  intros Ht Hg H1 H2.
  assert (∀ p : Props, same_ref (topology p) (topology p) = true) as Hrefl
    by (intros p; unfold same_ref; by apply bool_decide_eq_true_2).
  assert (props c1 = with_layers (props c0) ls1) as Hp1.
  { unfold componentWillReceiveProps in H1.
    apply bind_Some in H1 as (u1 & _ & H1).
    by apply bind_Some in H1 as ([c' u2] & _ & [= <-]). }
  assert (with_layers (props c0) ls2 = with_layers (props c1) ls2) as Hshown
    by (by rewrite Hp1).
  pose proof (componentWillReceiveProps_feature c0 c1 _ (name layer) g H1
                (Hrefl _) Hg) as Hg1.
  assert (same_ref (topology (with_layers (props c0) ls2))
                   (topology (props c1)) = true) as Href2
    by (rewrite Hp1; apply (Hrefl (props c0))).
  pose proof (componentWillReceiveProps_feature c1 c2 _ (name layer) g H2
                Href2 Hg1) as Hg2.
  split.
  { eapply cached_feature_not_extracted; [apply (Hrefl (props c0))|done..]. }
  split; [by eapply cached_feature_not_extracted|].
  split; [done|]. split; [done|]. split; [|apply visible_mesh_extracted].
  intros Hw Hh Hb1 Hb2.
  destruct (componentWillReceiveProps_layers_only c0 c1 ls1 H1 Hw Hh Hb1)
    as (_ & Hbb1 & Hpg1 & Hpd1).
  rewrite Hshown in H2.
  destruct (componentWillReceiveProps_layers_only c1 c2 ls2 H2)
    as (Hp2 & _ & Hpg2 & Hpd2); rewrite ?Hp1; try done; [congruence|].
  unfold renderLayer. rewrite Ht, Hg, Hg2. cbn.
  rewrite Hpg2, Hpg1, Hpd2, Hpd1, Hp2, Hp1. done.
Qed.

End Properties.

(** * Worked examples *)

(** Reading the result of a run that is known to succeed. *)
Lemma run_result {A : Type} (o : option A) (P : A → Prop) :
  bool_decide (is_Some o) = true →
  (∀ a, o = Some a → P a) →
  match o with Some a => P a | None => False end.
Proof.
  intros Hsome HP. destruct o as [a|]; [by apply HP|].
  apply bool_decide_eq_true in Hsome. by destruct Hsome.
Defined.

(** A boolean observation made on the result of a run. *)
Lemma observed {A : Type} (o : option A) (f : A → bool) (a : A) :
  f <$> o = Some true → o = Some a → f a = true.
Proof. intros Hf ->. by injection Hf. Defined.

(** The same for a decidable proposition. *)
Lemma observed_prop {A : Type} (o : option A) (P : A → Prop)
    `{∀ a, Decision (P a)} (a : A) :
  (λ a, bool_decide (P a)) <$> o = Some true → o = Some a → P a.
Proof.
  intros Hf ->. injection Hf as Hf. by apply bool_decide_eq_true in Hf.
Defined.

Section Examples.
#[local] Existing Instance spec_env.

Lemma scaleExtent_fixed_at_construction_witness :
  match (c ← constructor p600; c' ← run c lifecycle; Some (c, c')) with
  | Some (c, c') =>
      d3.scaleExtent (zoom c')
      = (JS.max (scaleBase (state c)) (minZoom p600),
         JS.max (scaleBase (state c)) (maxZoom p600))
  | None => False
  end.
Proof.
  apply run_result; [vm_compute; reflexivity|].
  intros [c c'] Ho. apply bind_Some in Ho as (c0 & Hc & Ho).
  apply bind_Some in Ho as (c1 & Hrun & [= <- <-]).
  destruct (scaleExtent_fixed_at_construction p600 c0 c1 lifecycle Hc Hrun)
    as (_ & H1 & H2).
  rewrite H2. exact H1.
Defined.


Lemma zoom_buttons_stay_in_extent_witness :
  match mount p600 with
  | Some c =>
      ∃ c', run c [ZoomIn; ZoomOut; ZoomOut] = Some c'
        ∧ d3.scaleExtent (zoom c') = d3.scaleExtent (zoom c)
        ∧ ((d3.scaleExtent (zoom c)).1 <=? scale (state c'))%num = true
        ∧ (scale (state c') <=? (d3.scaleExtent (zoom c)).2)%num = true
  | None => False
  end.
Proof.
  apply run_result; [vm_compute; reflexivity|].
  intros c Hc.
  apply (zoom_buttons_stay_in_extent p600 c [ZoomIn; ZoomOut; ZoomOut]
           (Q2Qc (11 # 10)) Hc).
  - constructor; [by left|]. constructor; [by right|].
    constructor; [by right|]. constructor.
  - reflexivity.
  - apply Qc_eqb_neq. vm_compute. reflexivity.
  - apply (observed (mount p600)
             (λ c, ((d3.scaleExtent (zoom c)).1
                    <=? (d3.scaleExtent (zoom c)).2)%num) c);
      [vm_compute; reflexivity | exact Hc].
  - left. discriminate.
Defined.

(** C3, as stated, fails before the first call when minZoom is above the
    base scale: with minZoom 5 and maxZoom 10 on a base scale of 2 the
    extent is [5, 10] and the mounted component is at scale 2.  The first
    [zoomIn] then takes the scale to 5. *)
Lemma initial_scale_below_extent :
  (c ← mount p600_zoom_5_10;
   c' ← run c [];
   c1 ← run c [ZoomIn];
   Some (bool_decide (d3.scaleExtent (zoom c') = (of_Z 5, of_Z 10)),
         bool_decide (scale (state c') = of_Z 2),
         ((d3.scaleExtent (zoom c')).1 <=? scale (state c'))%num,
         bool_decide (scale (state c1) = of_Z 5)))
  = Some (true, true, false, true).
Proof. vm_compute. reflexivity. Qed.

Lemma feature_layer_toggle_reuses_cache_witness :
  match feature_toggled with
  | Some (c0, c1, c2) =>
      (countries true
       ∉ extracted_layers c1
           (with_layers (props c0)
              (mkRef 22 (two_layers true true StyleUndefined))))
      ∧ cache_feature (cache (state c2)) !! "countries" = Some wide_box
      ∧ renderLayer c2 ∅ (countries true) = renderLayer c0 ∅ (countries true)
  | None => False
  end.
Proof.
  apply run_result; [vm_compute; reflexivity|].
  intros [[c0 c1] c2] Ho. pose proof Ho as Hrun.
  apply bind_Some in Hrun as (c0' & _ & Hrun).
  apply bind_Some in Hrun as (c1' & H1 & Hrun).
  apply bind_Some in Hrun as (c2' & H2 & [= -> -> ->]).
  assert (cache_feature (cache (state c0)) !! name (countries true)
          = Some wide_box) as Hcached.
  { apply (observed_prop feature_toggled
             (λ r, cache_feature (cache (state r.1.1)) !! "countries"
                   = Some wide_box) (c0, c1, c2));
      [vm_compute; reflexivity | exact Ho]. }
  pose proof (feature_layer_toggle_reuses_cache c0 c1 c2
                (mkRef 21 (two_layers false true StyleUndefined))
                (mkRef 22 (two_layers true true StyleUndefined))
                (countries true) wide_box ∅ eq_refl Hcached H1 H2)
    as (_ & Hnot & _ & Hg & Hsame & _).
  split; [exact Hnot|]. split; [exact Hg|]. apply Hsame.
  - apply (observed_prop feature_toggled
             (λ r, is_nan (width (props r.1.1)) = false) (c0, c1, c2));
      [vm_compute; reflexivity | exact Ho].
  - apply (observed_prop feature_toggled
             (λ r, is_nan (height (props r.1.1)) = false) (c0, c1, c2));
      [vm_compute; reflexivity | exact Ho].
  - apply (observed_prop feature_toggled
             (λ r, concatAndComputeGeoJSONBounds (cache (state r.1.2))
                   = bounds (state r.1.1)) (c0, c1, c2));
      [vm_compute; reflexivity | exact Ho].
  - apply (observed_prop feature_toggled
             (λ r, concatAndComputeGeoJSONBounds (cache (state r.2))
                   = bounds (state r.1.1)) (c0, c1, c2));
      [vm_compute; reflexivity | exact Ho].
Defined.

(** C4, as stated, fails for a mesh layer: hidden and shown again with the
    topology the same object, the mesh layer of [p_two_layers] is in the
    cache and is nevertheless handed to [extractGeoJSON] by the update that
    shows it again. *)
Lemma mesh_layer_extracted_again :
  (c0 ← mount (p_two_layers StyleUndefined);
   let hidden := with_layers (props c0)
                   (mkRef 21 (two_layers true false StyleUndefined)) in
   let shown := with_layers (props c0)
                  (mkRef 22 (two_layers true true StyleUndefined)) in
   c1 ← componentWillReceiveProps c0 hidden;
   c2 ← componentWillReceiveProps c1 shown;
   Some (bool_decide (cache_mesh (cache (state c1)) !! "borders"
                      = Some wide_box),
         same_ref (topology shown) (topology (props c1)),
         name <$> extracted_layers c0 hidden,
         name <$> extracted_layers c1 shown))
  = Some (true, true, [], ["borders"]).
Proof. vm_compute. reflexivity. Qed.

Lemma mesh_style_memoized_by_key_witness :
  ∃ first,
    List.find (λ c, bool_decide (call_key c = "mesh-borders")) red_then_blue
    = Some first
    ∧ style_calls ∅ red_then_blue !! 1%nat = Some (own_style first).
Proof.
  apply (mesh_style_memoized_by_key red_then_blue 1
           (mkStyleCall "mesh-borders" (StyleObject blue) None)).
  reflexivity.
Defined.

(** C5, as stated, fails: the second call, made with the blue style,
    returns the red style of the first call, not the style computed from
    its own arguments. *)
Lemma second_call_returns_stale_style :
  ((λ st : Style, st !! "stroke") <$> style_calls ∅ red_then_blue,
   own_style (mkStyleCall "mesh-borders" (StyleObject blue) None) !! "stroke")
  = ([Some "red"; Some "red"], Some "blue").
Proof. vm_compute. reflexivity. Qed.


Lemma zero_size_renders_no_children_witness :
  match mount p600 with
  | Some c =>
      ResponsiveContainer_children with_size [Some p600] 0%num (of_Z 400)
      = None
      ∧ renderLayers
          (mkChoropleth (with_size (props c) 0%num (of_Z 400)) (state c)
             (clipExtent c) (zoom c) (zoom_listener c) (_svgNode c)
             (meshStyleCache c))
        = renderLayers c
  | None => False
  end.
Proof.
  apply run_result; [vm_compute; reflexivity|].
  intros c _. apply zero_size_renders_no_children. by left.
Defined.

(** C9, as stated, fails for a choropleth that is given a width of zero:
    it renders its visible layer. *)
Lemma zero_width_choropleth_renders_layers :
  (c ← mount p0;
   '(tree, _) ← render c;
   Some (falsy (div_width tree),
         (λ el : option Element, element_key <$> el) <$> svg_children tree))
  = Some (true, [Some "feature-countries"]).
Proof. vm_compute. reflexivity. Qed.

(** A choropleth inside the container is rendered with the measured size,
    and not at all while the width is zero. *)
Example container_sizes_children :
  ((λ ps : list (option Props),
      (λ p : option Props, (λ q, JS.eqb (width q) (of_Z 300)) <$> p) <$> ps)
   <$> ResponsiveContainer_children with_size [Some p600; None]
         (of_Z 300) (of_Z 200),
   bool_decide (is_Some (ResponsiveContainer_children with_size
                           [Some p600; None] 0%num (of_Z 200))))
  = (Some [Some true; None], false).
Proof. vm_compute. reflexivity. Qed.

(** At scale 2 the threshold is 1/4: a point of weight 1/4 is handed on,
    moved to [(2x + 10, 2y + 20)], and a point of weight 1/5 is dropped. *)
Example level_of_detail_at_scale_2 :
  bool_decide
    (stream_points
       (createPathGenerator (of_Z 2) (of_Z 10, of_Z 20)
          (padded_extent (of_Z 600) (of_Z 400)))
       [(of_Z 3, of_Z 4, of_Q (1 # 4)); (of_Z 5, of_Z 6, of_Q (1 # 5))]
     = [(of_Z 16, of_Z 28)])
  = true.
Proof. vm_compute. reflexivity. Qed.

(** Of two datums with the same key the later one is kept. *)
Example processData_duplicate_key :
  processData [datum "1" "10"; datum "2" "90"; datum "1" "30"]
              (SpecUtils.FieldName "id")
  = {[ "1" := datum "1" "30"; "2" := datum "2" "90" ]}.
Proof. vm_compute. reflexivity. Qed.

(** [zoomIn] with step 1.1 on a base scale of 2 gives 2.2, and the resize
    to half the size then gives 1.1. *)
Example zoomIn_then_resize :
  (c ← mount p600;
   c1 ← zoomIn c;
   c2 ← componentWillReceiveProps c1 p300;
   Some (bool_decide (scale (state c1) = of_Q (22 # 10)),
         bool_decide (scaleBase (state c2) = of_Z 1),
         bool_decide (scale (state c2) = of_Q (11 # 10))))
  = Some (true, true, true).
Proof. vm_compute. reflexivity. Qed.

End Examples.

(** * More properties *)

Lemma eqb_eq (a b : num) : (a =? b)%num = true → a = b.
Proof.
  destruct a as [p| | |], b as [q| | |]; cbn; try done.
  intros H. f_equal. by apply Qc_eqb_eq.
Qed.

Lemma neqb_false_eq (a b : num) : (a !=? b)%num = false → a = b.
Proof. unfold JS.neqb. intros H. apply eqb_eq. by apply negb_false_iff. Qed.

Lemma leb_trans (a b c : num) :
  (a <=? b)%num = true → (b <=? c)%num = true → (a <=? c)%num = true.
Proof.
  destruct a as [p| | |], b as [q| | |], c as [r| | |]; cbn; try done.
  rewrite !Qc_leb_le. apply Qle_trans.
Qed.

Lemma Qinv_le_contravar_pos (a b : Q) :
  (0 < a)%Q → (a <= b)%Q → (/ b <= / a)%Q.
Proof.
  intros Ha Hab. apply Qle_lteq in Hab as [Hlt|Heq].
  - assert (0 < b)%Q as Hb by (by eapply Qlt_trans).
    apply Qlt_le_weak. by apply (proj1 (Qinv_lt_contravar a b Ha Hb)).
  - rewrite Heq. apply Qle_refl.
Qed.

(** The threshold [1 / s / s] does not grow with a positive scale. *)
Lemma area_antitone (s s' : Qc) :
  (0 < s)%Qc → (s <= s')%Qc →
  (1 / Fin s' / Fin s' <=? 1 / Fin s / Fin s)%num = true.
Proof.
  intros Hs Hss'.
  assert (0 < s')%Qc as Hs' by (by eapply Qclt_le_trans).
  assert (s ≠ 0%Qc) as Hne by (apply not_eq_sym; by apply Qclt_not_eq).
  assert (s' ≠ 0%Qc) as Hne' by (apply not_eq_sym; by apply Qclt_not_eq).
  apply Qc_eqb_neq in Hne, Hne'.
  unfold JS.div, JS.one, of_Z. rewrite Hne, Hne'. cbn [JS.leb].
  apply Qc_leb_le. unfold Qcdiv, Qcmult, Qcinv, Q2Qc. cbn [this].
  rewrite !Qred_correct.
  assert (0 < / s')%Q as Hi' by (by apply Qinv_lt_0_compat).
  assert (/ s' <= / s)%Q as Hi by (by apply Qinv_le_contravar_pos).
  change (inject_Z 1) with 1%Q. rewrite !Qmult_1_l.
  apply Qmult_le_compat_nonneg; split; try done; by apply Qlt_le_weak.
Qed.

Section MoreProperties.
Context `{E : Env}.

(** *** What the component keeps *)

Lemma zoom_transform_consistent (c c' : Choropleth) (t : d3.Transform) :
  zoom_transform c t = Some c' → consistent c → consistent c'.
Proof.
  intros [_ ->]%zoom_transform_Some (Hs & Hb & Hp & Hc). cbn.
  destruct (zoom_listener c); unfold consistent; cbn; done.
Qed.

Lemma receive_data_keys (c : Choropleth) (nextProps : Props)
    (u : StateUpdate) :
  new_bounds (receive_data c nextProps u) = new_bounds u
  ∧ new_scale (receive_data c nextProps u) = new_scale u
  ∧ new_scaleBase (receive_data c nextProps u) = new_scaleBase u
  ∧ new_translate (receive_data c nextProps u) = new_translate u
  ∧ new_pathGenerator (receive_data c nextProps u) = new_pathGenerator u
  ∧ new_cache (receive_data c nextProps u) = new_cache u.
Proof. unfold receive_data. by case_match. Qed.

(** The two ways through the second block of a props update. *)
Lemma receive_view_cases (c c2 : Choropleth) (nextProps : Props)
    (u u2 : StateUpdate) :
  receive_view c nextProps u = Some (c2, u2) →
  ((width nextProps !=? width (props c))%num
   || (height nextProps !=? height (props c))%num
   || bool_decide (is_Some (new_bounds u)) = true
   ∧ is_Some (_svgNode c)
   ∧ clipExtent c2 = padded_extent (width nextProps) (height nextProps)
   ∧ ∃ scaleBase' scale' translate',
       scaleBase' = calcScale (width nextProps) (height nextProps)
                      (default (bounds (state c)) (new_bounds u))
       ∧ scale' = (scaleBase' * (scale (state c) / scaleBase (state c)))%num
       ∧ new_scaleBase u2 = Some scaleBase'
       ∧ new_scale u2 = Some scale'
       ∧ new_translate u2 = Some translate'
       ∧ new_pathGenerator u2
         = Some (createPathGenerator scale' translate'
                   (padded_extent (width nextProps) (height nextProps))))
  ∨ ((width nextProps !=? width (props c))%num
     || (height nextProps !=? height (props c))%num
     || bool_decide (is_Some (new_bounds u)) = false
     ∧ c2 = c ∧ u2 = u).
Proof.
  unfold receive_view. case_match; [|intros [= <- <-]; by right].
  intros Hr. apply bind_Some in Hr as (c3 & Hz & [= <- <-]). left.
  apply zoom_transform_Some in Hz as [Hnode ->]. cbn in Hnode.
  split; [done|]. split; [done|]. split.
  { cbn. by destruct (zoom_listener c). }
  eauto 10.
Qed.

Lemma componentWillReceiveProps_consistent (c c' : Choropleth)
    (nextProps : Props) :
  componentWillReceiveProps c nextProps = Some c' →
  consistent c → consistent c'.
Proof.
  intros H (Hs & Hb & Hp & Hc). unfold componentWillReceiveProps in H.
  apply bind_Some in H as (u1 & Hu1 & H1).
  apply bind_Some in H1 as ([c2 u2] & H2 & [= <-]).
  destruct (receive_geometry_Some c nextProps u1 Hu1)
    as (Hn1 & Hn2 & Hn3 & Hn4 & Hn5 & Hcases).
  assert (new_bounds u1 = None
            ∧ bounds (state c)
              = concatAndComputeGeoJSONBounds
                  (default (cache (state c)) (new_cache u1))
          ∨ ∃ b, new_bounds u1 = Some b
              ∧ b = concatAndComputeGeoJSONBounds
                      (default (cache (state c)) (new_cache u1)))
    as Hbounds.
  { destruct Hcases as [->|(ex & cache' & _ & _ & -> & ->)]; [by left|].
    cbn. unfold lodash.isEqual. case_bool_decide as Heq; [left|right; eauto].
    by rewrite Heq. }
  clear Hcases.
  destruct (receive_data_keys c2 nextProps u2) as (Hd1 & Hd2 & Hd3 & Hd4 & Hd5 & Hd6).
  pose proof (receive_view_Some c c2 nextProps u1 u2 H2)
    as (Hv1 & Hv2 & _ & Hv4 & Hv5 & _).
  unfold consistent. cbn.
  rewrite Hd1, Hd2, Hd3, Hd4, Hd5, Hd6, Hv1, Hv2, Hv4, Hv5.
  destruct (receive_view_cases c c2 nextProps u1 u2 H2)
    as [(Hcond & _ & Hclip & sb & sc & tr & -> & -> & -> & -> & -> & ->)
       |(Hcond & -> & ->)].
  - cbn. rewrite Hclip.
    destruct Hbounds as [[-> Hbb]|(b & -> & Hbb)]; cbn; done.
  - rewrite Hn1, Hn2, Hn3, Hn4. cbn.
    apply orb_false_iff in Hcond as [Hcond Hnb].
    apply orb_false_iff in Hcond as [Hw Hh].
    apply neqb_false_eq in Hw, Hh. rewrite Hw, Hh.
    destruct Hbounds as [[-> Hbb]|(b & Hsome & _)]; cbn.
    + done.
    + apply bool_decide_eq_false in Hnb. destruct Hnb. by rewrite Hsome.
Qed.

Lemma step_consistent (c c' : Choropleth) (e : Event) :
  step c e = Some c' → consistent c → consistent c'.
Proof.
  destruct e; cbn.
  - by intros [= <-].
  - unfold componentDidMount. destruct (translate (state c)) eqn:Ht.
    intros Hz Hc. eapply zoom_transform_consistent; [exact Hz|].
    destruct Hc as (? & ? & ? & ?). unfold consistent. cbn. done.
  - apply componentWillReceiveProps_consistent.
  - unfold gesture. apply zoom_transform_consistent.
  - unfold zoomIn, zoom_scaleBy. intros H.
    apply bind_Some in H as (t0 & _ & Hz).
    by apply (zoom_transform_consistent _ _ _ Hz).
  - unfold zoomOut, zoom_scaleBy. intros H.
    apply bind_Some in H as (t0 & _ & Hz).
    by apply (zoom_transform_consistent _ _ _ Hz).
  - unfold zoomReset. destruct (calcTranslate _ _ _ _ _).
    apply zoom_transform_consistent.
  - intros H. apply render_Some in H as (Hp & Hs & _ & _ & _ & Hc).
    unfold consistent. by rewrite Hp, Hs, Hc.
Qed.

Lemma run_consistent (es : list Event) (c c' : Choropleth) :
  run c es = Some c' → consistent c → consistent c'.
Proof.
  revert c. induction es as [|e es IH]; intros c; cbn.
  - by intros [= <-].
  - intros H Hc. apply bind_Some in H as (c1 & H1 & H2).
    eapply IH; [exact H2|]. by eapply step_consistent.
Qed.

Lemma constructor_consistent (p : Props) (c : Choropleth) :
  constructor p = Some c → consistent c.
Proof.
  unfold constructor. intros H. apply bind_Some in H as (ex & _ & [= <-]).
  by unfold consistent.
Qed.

(** X1. At every moment of the life of a component the base scale of the
    state is the scale fitted to the current width, height and bounds. *)
Theorem scaleBase_fits_props (p : Props) (c c' : Choropleth)
    (es : list Event) :
  constructor p = Some c →
  run c es = Some c' →
  scaleBase (state c')
  = calcScale (width (props c')) (height (props c')) (bounds (state c')).
Proof.
  intros Hc Hrun.
  by destruct (run_consistent es c c' Hrun (constructor_consistent p c Hc)).
Qed.

(** X2. At every moment the bounds of the state are the bounds of the
    geometry in the cache of the state. *)
Theorem bounds_are_those_of_cache (p : Props) (c c' : Choropleth)
    (es : list Event) :
  constructor p = Some c →
  run c es = Some c' →
  bounds (state c') = concatAndComputeGeoJSONBounds (cache (state c')).
Proof.
  intros Hc Hrun.
  by destruct (run_consistent es c c' Hrun (constructor_consistent p c Hc))
    as (_ & ? & _).
Qed.

(** X3. At every moment the path generator of the state is the one built
    from the scale and the translate of the state and the clip extent of
    the instance, and the clip extent is the viewport of the current props
    padded by one unit on each side. *)
Theorem pathGenerator_matches_state (p : Props) (c c' : Choropleth)
    (es : list Event) :
  constructor p = Some c →
  run c es = Some c' →
  pathGenerator (state c')
  = createPathGenerator (scale (state c')) (translate (state c'))
                        (clipExtent c')
  ∧ clipExtent c' = padded_extent (width (props c')) (height (props c')).
Proof.
  intros Hc Hrun.
  by destruct (run_consistent es c c' Hrun (constructor_consistent p c Hc))
    as (_ & _ & ? & ?).
Qed.

(** *** Props updates, continued *)

Lemma setState_no_update (s : State) : setState s no_update = s.
Proof. by destruct s. Qed.

(** X4. A props update with the same topology, layers and data objects and
    the same width and height replaces the props and nothing else: the
    state and the instance fields are those of before, and the update does
    not even need the svg node. *)
Theorem unchanged_props_keep_state (c : Choropleth) (nextProps : Props) :
  same_ref (topology nextProps) (topology (props c)) = true →
  same_ref (layers nextProps) (layers (props c)) = true →
  same_ref (data nextProps) (data (props c)) = true →
  (width nextProps !=? width (props c))%num = false →
  (height nextProps !=? height (props c))%num = false →
  componentWillReceiveProps c nextProps
  = Some (mkChoropleth nextProps (state c) (clipExtent c) (zoom c)
            (zoom_listener c) (_svgNode c) (meshStyleCache c)).
Proof.
  intros Ht Hl Hd Hw Hh.
  unfold componentWillReceiveProps, receive_geometry.
  rewrite Ht, Hl. cbn. unfold receive_view. cbn. rewrite Hw, Hh. cbn.
  unfold receive_data. rewrite Hd. cbn. by rewrite setState_no_update.
Qed.

(** X5. After a props update the processed data are those of before when
    the data array is the same object, even if the key field has changed,
    and are computed from the new data and the new key field when it is
    another object. *)
Theorem processedData_follows_data_object (c c' : Choropleth)
    (nextProps : Props) :
  componentWillReceiveProps c nextProps = Some c' →
  processedData (state c')
  = if same_ref (data nextProps) (data (props c))
    then processedData (state c)
    else processData (deref (data nextProps)) (keyField nextProps).
Proof.
  intros H. unfold componentWillReceiveProps in H.
  apply bind_Some in H as (u1 & Hu1 & H1).
  apply bind_Some in H1 as ([c2 u2] & H2 & [= <-]).
  destruct (receive_geometry_Some c nextProps u1 Hu1)
    as (_ & _ & _ & _ & Hn5 & _).
  apply receive_view_Some in H2 as (_ & _ & Hv3 & _ & _ & Hv6 & Hv7 & _).
  cbn. unfold receive_data. rewrite Hv7.
  destruct (same_ref (data nextProps) (data (props c))); cbn; [|done].
  by rewrite Hv3, Hn5, Hv6.
Qed.

(** X6. Without an svg node (before the ref callback has run, or after it
    has run with [null]) the zoom buttons, the reset, [componentDidMount]
    and every props update that changes the width or the height throw. *)
Theorem no_svg_node_throws (c : Choropleth) :
  _svgNode c = None →
  zoomIn c = None ∧ zoomOut c = None ∧ zoomReset c = None
  ∧ componentDidMount c = None
  ∧ ∀ nextProps,
      (width nextProps !=? width (props c))%num = true
      ∨ (height nextProps !=? height (props c))%num = true →
      componentWillReceiveProps c nextProps = None.
Proof.
  intros Hnode. repeat split.
  - unfold zoomIn, zoom_scaleBy. by rewrite Hnode.
  - unfold zoomOut, zoom_scaleBy. by rewrite Hnode.
  - unfold zoomReset, zoom_transform. rewrite Hnode.
    by destruct (calcTranslate _ _ _ _ _).
  - unfold componentDidMount, zoom_transform. cbn. rewrite Hnode.
    by destruct (translate (state c)).
  - intros nextProps Hsize. unfold componentWillReceiveProps.
    destruct (receive_geometry c nextProps) as [u1|]; [|done]. cbn.
    unfold receive_view, zoom_transform. cbn. rewrite Hnode.
    by destruct Hsize as [-> | ->]; rewrite ?orb_true_r.
Qed.

(** *** Reset and mount *)

Lemma zoom_transform_listening (c : Choropleth) (t0 t : d3.Transform) :
  _svgNode c = Some t0 →
  zoom_listener c = true →
  zoom_transform c t
  = Some (zoomEvent (mkChoropleth (props c) (state c) (clipExtent c)
                       (zoom c) true (Some t) (meshStyleCache c))).
Proof. intros Hn Hl. unfold zoom_transform. by rewrite Hn, Hl. Qed.

(** X7. On a mounted component [zoomReset] brings the scale back to the
    base scale and the translate to the one that centres the bounds,
    whatever the scale extent is, and leaves the base scale and the bounds
    alone; a second [zoomReset] changes nothing any more. *)
Theorem zoomReset_fits_and_is_idempotent (c : Choropleth)
    (t : d3.Transform) :
  _svgNode c = Some t →
  zoom_listener c = true →
  ∃ c', zoomReset c = Some c'
    ∧ scale (state c') = scaleBase (state c)
    ∧ translate (state c')
      = calcTranslate (width (props c)) (height (props c))
                      (scaleBase (state c)) (bounds (state c)) None
    ∧ scaleBase (state c') = scaleBase (state c)
    ∧ bounds (state c') = bounds (state c)
    ∧ zoomReset c' = Some c'.
Proof.
  intros Hn Hl. unfold zoomReset.
  destruct (calcTranslate (width (props c)) (height (props c))
              (scaleBase (state c)) (bounds (state c)) None)
    as [x y] eqn:Ht.
  rewrite identity_translate_scale.
  rewrite (zoom_transform_listening c t _ Hn Hl).
  eexists. split; [reflexivity|]. cbn. repeat split.
  rewrite Ht. rewrite identity_translate_scale.
  unfold zoom_transform. cbn. done.
Qed.

(** X8. Mounting leaves the state as the constructor made it: the
    transform that [componentDidMount] hands to the zoom behaviour comes
    back through [zoomEvent] as the same scale, translate and path
    generator. *)
Theorem mount_keeps_constructor_state (p : Props) (c : Choropleth) :
  mount p = Some c →
  ∃ c0, constructor p = Some c0
    ∧ state c = state c0
    ∧ props c = p
    ∧ clipExtent c = clipExtent c0
    ∧ zoom c = zoom c0.
Proof.
  unfold mount. intros H. apply bind_Some in H as (c0 & Hc & Hrun).
  exists c0. split; [done|].
  pose proof (constructor_consistent p c0 Hc) as (_ & _ & Hpg & _).
  apply constructor_Some in Hc as (Hp0 & _).
  cbn [run step] in Hrun.
  apply bind_Some in Hrun as (c1 & Hr & Hrun).
  apply render_Some in Hr as (Hp & Hs & Hz & _ & _ & Hce).
  apply bind_Some in Hrun as (c2 & [= <-] & Hrun).
  apply bind_Some in Hrun as (c3 & Hm & [= <-]).
  unfold componentDidMount, saveSvgRef in Hm. cbn in Hm.
  destruct (translate (state c1)) as [tx ty] eqn:Ht.
  rewrite identity_translate_scale in Hm. cbn in Hm.
  injection Hm as <-. cbn. rewrite Hp, Hz, Hce, Hp0.
  split; [|done]. rewrite <- Hs in Hpg |- *. clear Hs.
  destruct (state c1) as [b sc sb tr pg ca pd]. cbn in *.
  unfold setState. cbn. by rewrite Hpg, Ht.
Qed.

(** *** Rendering the layers *)

Lemma renderLayer_Some (c : Choropleth) (memo memo' : gmap string Style)
    (layer : Layer) (el : option Element) :
  renderLayer c memo layer = Some (el, memo') →
  rendered_as layer el ∧ memo ⊆ memo'.
Proof.
  unfold renderLayer, rendered_as, layer_key.
  destruct (visible layer); cbn; [|by intros [= <- <-]].
  destruct (type layer).
  - intros H. apply bind_Some in H as (g & _ & [= <- <-]). done.
  - unfold calcMeshLayerStyle_memoized, lodash.memoize.
    destruct (memo !! _) as [r|] eqn:Hm; intros [= <- <-]; [done|].
    split; [done|]. by apply insert_subseteq.
Qed.

Lemma renderLayers_from_Some (c : Choropleth) (ls : list Layer)
    (memo memo' : gmap string Style) (els : list (option Element)) :
  renderLayers_from c memo ls = Some (els, memo') →
  Forall2 rendered_as ls els ∧ memo ⊆ memo'.
Proof.
  revert memo els. induction ls as [|l ls IH]; intros memo els; cbn.
  - intros [= <- <-]. by split.
  - intros H. apply bind_Some in H as ([el m1] & H1 & H).
    apply bind_Some in H as ([els' m2] & H2 & [= <- <-]).
    apply renderLayer_Some in H1 as [Hel Hsub1].
    apply IH in H2 as [Hels Hsub2]. split; [by constructor|].
    by etrans.
Qed.

(** X9. When [renderLayers] returns, it returns one entry per layer of the
    props, in their order: [null] for a hidden layer and, for a visible
    one, an element whose key is [type-name]. *)
Theorem renderLayers_one_entry_per_layer (c : Choropleth)
    (els : list (option Element)) (memo : gmap string Style) :
  renderLayers c = Some (els, memo) →
  Forall2 rendered_as (deref (layers (props c))) els
  ∧ length els = length (deref (layers (props c))).
Proof.
  intros H. apply renderLayers_from_Some in H as [H _].
  split; [done|]. symmetry. by eapply Forall2_length.
Qed.

Lemma renderLayers_from_None (c : Choropleth) (ls : list Layer)
    (memo : gmap string Style) :
  renderLayers_from c memo ls = None ↔ Exists (uncached_feature c) ls.
Proof.
  revert memo. induction ls as [|l ls IH]; intros memo; cbn.
  - split; [done|]. by intros ?%Exists_nil.
  - rewrite Exists_cons. unfold renderLayer at 1, uncached_feature at 1.
    destruct (visible l) eqn:Hv; cbn.
    + destruct (type l) eqn:Ht.
      * destruct (cache_feature (cache (state c)) !! name l) eqn:Hg; cbn.
        -- destruct (renderLayers_from c memo ls) as [[els m]|] eqn:Hr; cbn.
           ++ split; [done|]. intros [(_ & _ & ?)|Hex]; [done|].
              apply (IH memo) in Hex. congruence.
           ++ split; [|done]. intros _. right. by apply (IH memo).
        -- split; [|done]. intros _. by left.
      * destruct (calcMeshLayerStyle_memoized memo _ _ _) as [st m1]. cbn.
        destruct (renderLayers_from c m1 ls) as [[els m]|] eqn:Hr; cbn.
        -- split; [done|]. intros [(_ & ? & _)|Hex]; [done|].
           apply (IH m1) in Hex. congruence.
        -- split; [|done]. intros _. right. by apply (IH m1).
    + destruct (renderLayers_from c memo ls) as [[els m]|] eqn:Hr; cbn.
      * split; [done|]. intros [(? & _)|Hex]; [done|].
        apply (IH memo) in Hex. congruence.
      * split; [|done]. intros _. right. by apply (IH memo).
Qed.


Lemma renderLayer_again (c : Choropleth) (memo memo' memo2 : gmap string Style)
    (layer : Layer) (el : option Element) :
  renderLayer c memo layer = Some (el, memo') →
  memo' ⊆ memo2 →
  renderLayer c memo2 layer = Some (el, memo2).
Proof.
  unfold renderLayer.
  destruct (visible layer); cbn; [|by intros [= <- <-]].
  destruct (type layer).
  - intros H _. apply bind_Some in H as (g & -> & [= <- <-]). done.
  - unfold calcMeshLayerStyle_memoized, lodash.memoize.
    destruct (memo !! _) as [r|] eqn:Hm; intros [= <- <-] Hsub.
    + by rewrite (lookup_weaken _ _ _ _ Hm Hsub).
    + erewrite lookup_weaken; [done| |exact Hsub]. apply lookup_insert_eq.
Qed.

Lemma renderLayers_from_again (c : Choropleth) (ls : list Layer)
    (memo memo' memo2 : gmap string Style) (els : list (option Element)) :
  renderLayers_from c memo ls = Some (els, memo') →
  memo' ⊆ memo2 →
  renderLayers_from c memo2 ls = Some (els, memo2).
Proof.
  revert memo els. induction ls as [|l ls IH]; intros memo els; cbn.
  - by intros [= <- <-].
  - intros H Hsub. apply bind_Some in H as ([el m1] & H1 & H).
    apply bind_Some in H as ([els' m2] & H2 & [= <- <-]).
    pose proof (renderLayers_from_Some _ _ _ _ _ H2) as [_ Hsub2].
    rewrite (renderLayer_again c memo m1 memo2 l el H1) by (by etrans).
    cbn. by rewrite (IH m1 els' H2 Hsub).
Qed.

Lemma renderLayers_from_memo_field (c : Choropleth)
    (memo0 memo : gmap string Style) (ls : list Layer) :
  renderLayers_from
    (mkChoropleth (props c) (state c) (clipExtent c) (zoom c)
                  (zoom_listener c) (_svgNode c) memo0) memo ls
  = renderLayers_from c memo ls.
Proof.
  revert memo. induction ls as [|l ls IH]; intros memo; [done|].
  cbn [renderLayers_from].
  assert (renderLayer
            (mkChoropleth (props c) (state c) (clipExtent c) (zoom c)
               (zoom_listener c) (_svgNode c) memo0) memo l
          = renderLayer c memo l) as -> by done.
  destruct (renderLayer c memo l) as [[el m1]|]; [|done]. cbn.
  by rewrite IH.
Qed.

(** X11. Rendering again, with nothing changed in between, returns the
    same tree and leaves the instance as the first render left it. *)
Theorem render_twice (c c1 : Choropleth) (tree : Rendered) :
  render c = Some (tree, c1) →
  render c1 = Some (tree, c1).
Proof.
  unfold render, renderLayers. intros H.
  apply bind_Some in H as ([els memo] & Hr & [= <- <-]). cbn.
  rewrite renderLayers_from_memo_field.
  by rewrite (renderLayers_from_again c _ _ memo memo els Hr).
Qed.

Lemma step_memo (c c' : Choropleth) (e : Event) :
  step c e = Some c' → meshStyleCache c ⊆ meshStyleCache c'.
Proof.
  assert (∀ c0 c1 t, zoom_transform c0 t = Some c1 →
            meshStyleCache c0 ⊆ meshStyleCache c1) as Hz.
  { intros c0 c1 t [_ ->]%zoom_transform_Some. cbn.
    by destruct (zoom_listener c0). }
  destruct e; cbn.
  - by intros [= <-].
  - unfold componentDidMount. destruct (translate (state c)).
    intros H. by apply Hz in H.
  - unfold componentWillReceiveProps. intros H.
    apply bind_Some in H as (u1 & _ & H1).
    apply bind_Some in H1 as ([c2 u2] & H2 & [= <-]). cbn.
    apply receive_view_Some in H2 as (_ & _ & _ & _ & _ & _ & _ & ->). done.
  - unfold gesture. apply Hz.
  - unfold zoomIn, zoom_scaleBy. intros H.
    apply bind_Some in H as (t0 & _ & H). by apply Hz in H.
  - unfold zoomOut, zoom_scaleBy. intros H.
    apply bind_Some in H as (t0 & _ & H). by apply Hz in H.
  - unfold zoomReset. destruct (calcTranslate _ _ _ _ _). apply Hz.
  - unfold render, renderLayers. intros H.
    apply fmap_Some in H as ([r c1] & Hr & ->).
    apply bind_Some in Hr as ([els memo] & Hr & [= _ <-]). cbn.
    by apply renderLayers_from_Some in Hr as [_ ?].
Qed.

Lemma run_memo (es : list Event) (c c' : Choropleth) :
  run c es = Some c' → meshStyleCache c ⊆ meshStyleCache c'.
Proof.
  revert c. induction es as [|e es IH]; intros c; cbn.
  - by intros [= <-].
  - intros H. apply bind_Some in H as (c1 & H1 & H2).
    etrans; [by eapply step_memo|by apply IH].
Qed.

(** X12. The style computed for a mesh layer key is never dropped nor
    replaced: whatever happens to the component afterwards, a later render
    of a visible mesh layer with this key gives the path that style,
    whatever the style of the layer is then. *)
Theorem mesh_style_never_recomputed (c c' : Choropleth) (es : list Event)
    (layer : Layer) (st : Style) :
  meshStyleCache c !! layer_key layer = Some st →
  run c es = Some c' →
  visible layer = true →
  type layer = mesh →
  meshStyleCache c' !! layer_key layer = Some st
  ∧ renderLayer c' (meshStyleCache c') layer
    = Some (Some (Path (className layer) (layer_key layer)
                    (cache_mesh (cache (state c')) !! name layer)
                    (pathGenerator (state c')) st),
            meshStyleCache c').
Proof.
  intros Hst Hrun Hv Ht. apply run_memo in Hrun.
  pose proof (lookup_weaken _ _ _ _ Hst Hrun) as Hst'. split; [done|].
  unfold renderLayer, calcMeshLayerStyle_memoized, lodash.memoize.
  unfold layer_key in Hst' |- *. rewrite Hv. rewrite Ht in Hst' |- *.
  cbn in Hst' |- *. by rewrite Hst'.
Qed.

(** X13. The keys of two layers are equal exactly when the layers have the
    same type and the same name, so that layers of distinct type or name
    never share an element key or a memoized style. *)
Theorem layer_key_injective (l1 l2 : Layer) :
  layer_key l1 = layer_key l2 ↔ type l1 = type l2 ∧ name l1 = name l2.
Proof.
  unfold layer_key. split.
  - destruct (type l1), (type l2); cbn; intros H; try discriminate H;
      by injection H as H.
  - by intros [-> ->].
Qed.

(** *** Geometry extraction, continued *)

(** X14. A props update hands to geometry extraction only layers of the
    new props that are visible: a hidden layer is never extracted by an
    update. *)
Theorem update_extracts_visible_layers_only (c : Choropleth)
    (nextProps : Props) (l : Layer) :
  l ∈ extracted_layers c nextProps →
  l ∈ deref (layers nextProps) ∧ visible l = true.
Proof.
  unfold extracted_layers, uncachedLayers. case_match; [|by intros ?%not_elem_of_nil].
  intros Hl. apply list_elem_of_In, filter_In in Hl as [Hl _].
  apply filter_In in Hl as [Hl Hv]. split; [by apply list_elem_of_In|done].
Qed.

(** X15. A props update with another topology object hands every visible
    layer to geometry extraction, cached or not. *)
Theorem new_topology_extracts_all_visible (c : Choropleth)
    (nextProps : Props) :
  same_ref (topology nextProps) (topology (props c)) = false →
  extracted_layers c nextProps
  = List.filter visible (deref (layers nextProps)).
Proof.
  intros Href. unfold extracted_layers, uncachedLayers, starting_cache.
  rewrite Href. cbn. induction (List.filter visible _) as [|l ls IH]; [done|].
  cbn. rewrite orb_true_r. by rewrite IH.
Qed.

(** X16. A props update in which no layer is visible extracts nothing and
    keeps the cache and the bounds as they are, also when the topology is
    another object: the geometry of the old topology stays in the cache. *)
Theorem hidden_layers_keep_cache (c c' : Choropleth) (nextProps : Props) :
  Forall (λ l, visible l = false) (deref (layers nextProps)) →
  componentWillReceiveProps c nextProps = Some c' →
  extracted_layers c nextProps = []
  ∧ cache (state c') = cache (state c)
  ∧ bounds (state c') = bounds (state c).
Proof.
  intros Hhidden H.
  assert (uncachedLayers c nextProps = []) as Hun.
  { unfold uncachedLayers.
    assert (List.filter visible (deref (layers nextProps)) = []) as ->; [|done].
    induction Hhidden as [|l ls Hl _ IH]; [done|]. cbn. by rewrite Hl. }
  split.
  { unfold extracted_layers. rewrite Hun. by case_match. }
  unfold componentWillReceiveProps in H.
  apply bind_Some in H as (u1 & Hu1 & H1).
  apply bind_Some in H1 as ([c2 u2] & H2 & [= <-]).
  assert (u1 = no_update) as ->.
  { unfold receive_geometry in Hu1. rewrite Hun in Hu1.
    destruct (_ || _); by injection Hu1. }
  destruct (receive_data_keys c2 nextProps u2) as (Hd1 & _ & _ & _ & _ & Hd6).
  apply receive_view_Some in H2 as (Hv1 & Hv2 & _ & Hv4 & Hv5 & _).
  cbn. by rewrite Hd1, Hd6, Hv1, Hv2, Hv4, Hv5.
Qed.

(** *** Processed data, continued *)

Lemma keyBy_foldl_size {A : Type} (f : A → string) (l : list A)
    (m : gmap string A) :
  NoDup (f <$> l) →
  (∀ a, a ∈ l → m !! f a = None) →
  size (foldl (λ result value, <[f value := value]> result) m l)
  = (size m + length l)%nat.
Proof.
  revert m. induction l as [|a l IH]; intros m Hnd Hm; cbn; [lia|].
  rewrite fmap_cons in Hnd. apply NoDup_cons in Hnd as [Ha Hnd].
  rewrite IH; [|done|].
  - rewrite map_size_insert_None; [lia|]. apply Hm. by left.
  - intros b Hb. rewrite lookup_insert_ne.
    + apply Hm. by right.
    + intros Heq. apply Ha. rewrite Heq. by apply list_elem_of_fmap_2.
Qed.

Lemma filter_unique_key {A : Type} (f : A → string) (l : list A) (d : A) :
  NoDup (f <$> l) → d ∈ l → filter (λ v, f v = f d) l = [d].
Proof.
  induction l as [|a l IH]; [by intros _ ?%not_elem_of_nil|].
  rewrite fmap_cons. intros [Ha Hnd]%NoDup_cons Hd.
  assert (∀ b, b ∈ l → f b ≠ f a) as Hfresh.
  { intros b Hb Heq. apply Ha. rewrite <- Heq.
    by apply (list_elem_of_fmap_2 f). }
  rewrite filter_cons. apply elem_of_cons in Hd as [->|Hd].
  - rewrite decide_True by done. f_equal.
    destruct (filter _ l) as [|b rest] eqn:Hf; [done|]. exfalso.
    assert (b ∈ filter (λ v, f v = f a) l) as Hb by (rewrite Hf; left).
    apply list_elem_of_filter in Hb as [Heq Hb]. by apply (Hfresh b).
  - rewrite decide_False; [by apply IH|].
    intros Heq. by apply (Hfresh d).
Qed.

(** X17. When the datums of the array resolve to pairwise distinct keys,
    every datum is found under its key and the mapping has exactly as many
    entries as the array; from an empty array it is empty. *)
Theorem processData_unique_keys (data : list Datum) (keyField : KeyField) :
  NoDup ((λ datum, propResolver datum keyField) <$> data) →
  (∀ datum, datum ∈ data →
     processData data keyField !! propResolver datum keyField = Some datum)
  ∧ size (processData data keyField) = length data.
Proof.
  intros Hnd. split.
  - intros d Hd. unfold processData. rewrite keyBy_lookup.
    by rewrite (filter_unique_key _ data d Hnd Hd).
  - unfold processData, lodash.keyBy.
    rewrite keyBy_foldl_size; [by rewrite map_size_empty|done|].
    intros a _. apply lookup_empty.
Qed.

(** *** The level of detail *)

(** X18. Zooming in never drops a point: a point that the path generator
    hands on at a positive scale is handed on at every larger scale,
    whatever the translate. *)
Theorem zooming_in_keeps_points (s s' : Qc) (t t' : Point) (x y z : num) :
  (0 < s)%Qc → (s <= s')%Qc →
  is_Some (point (Fin s) t x y z) →
  is_Some (point (Fin s') t' x y z).
Proof.
  intros Hs Hss' Hp. unfold point in *. cbn zeta in *.
  destruct (z >=? 1 / Fin s / Fin s)%num eqn:Hz; [|by destruct Hp].
  unfold JS.geb in *.
  by rewrite (leb_trans _ _ _ (area_antitone s s' Hs Hss') Hz).
Qed.

(** X19. At a scale of zero, or a scale that is NaN, no point of finite
    weight is handed on, whatever the translate: the paths are empty. *)
Theorem no_point_at_scale_zero (scale : num) (t : Point) (x y : num)
    (weight : Qc) :
  scale = 0%num ∨ scale = NaN →
  point scale t x y (Fin weight) = None.
Proof. by intros [-> | ->]. Qed.

(** *** The responsive container *)

Lemma falsy_iff (a : num) : falsy a = true ↔ a = 0%num ∨ a = NaN.
Proof.
  destruct a as [q| | |]; cbn; split; try done; try tauto;
    try (by intros [|]).
  - intros Hq. left. apply Qc_eqb_eq in Hq. by rewrite Hq.
  - intros [[= ->]|]; [done|done].
Qed.


(** X21. When the container renders, the elements among what it returns
    are its element children, in their order, each cloned with the
    measured width and height; a child that is [null] is never cloned. *)
Theorem container_clones_element_children {A : Type}
    (cloneElement : A → num → num → A) (children rendered : list (option A))
    (w h : num) :
  ResponsiveContainer_children cloneElement children w h = Some rendered →
  omap id rendered = (λ ch, cloneElement ch w h) <$> omap id children
  ∧ falsy w = false ∧ falsy h = false.
Proof.
  unfold ResponsiveContainer_children.
  destruct (falsy w) eqn:Hw, (falsy h) eqn:Hh; try done.
  intros [= <-]. split; [|done].
  induction children as [|[ch|] children IH]; cbn; [done| |done].
  f_equal. exact IH.
Qed.

(** *** The demo application *)

Lemma includes_elem_of (selections : list LocId) (id : LocId) :
  includes selections id = true ↔ id ∈ selections.
Proof.
  unfold includes. rewrite existsb_exists. split.
  - intros (loc & Hin & Heq). apply bool_decide_eq_true in Heq as <-.
    by apply list_elem_of_In.
  - intros Hin. exists id. split; [by apply list_elem_of_In|].
    by apply bool_decide_eq_true.
Qed.

Lemma strict_neq_false (a b : LocId) :
  strict_neq a b = false ↔ a = b ∧ ¬ nan_id b.
Proof.
  destruct a as [m|s], b as [n|t]; cbn.
  - unfold JS.neqb. rewrite negb_false_iff. split.
    + intros H. apply eqb_eq in H as Heq. subst m. split; [done|].
      destruct n; cbn in *; try discriminate H; tauto.
    + intros [[= ->] Hn]. destruct n as [q| | |]; cbn in *; try done.
      by apply Qc_eqb_eq.
  - split; [done|]. by intros [? _].
  - split; [done|]. by intros [? _].
  - rewrite negb_false_iff, bool_decide_eq_true. split.
    + intros ->. split; [done|]. cbn. tauto.
    + by intros [[= ->] _].
Qed.

Lemma filter_strict_neq_elem_of (selections : list LocId) (id id' : LocId) :
  id' ∈ List.filter (λ loc, strict_neq loc id) selections
  ↔ id' ∈ selections ∧ ¬ (id' = id ∧ ¬ nan_id id).
Proof.
  rewrite list_elem_of_In, filter_In, <- list_elem_of_In.
  rewrite <- strict_neq_false.
  destruct (strict_neq id' id); intuition congruence.
Qed.

(** X22. Clicking a location toggles it and nothing else: an id (other
    than the number NaN) is among the new selections exactly when it was
    not among the old ones, and every other id is selected after the click
    exactly when it was before. *)
Theorem selectLocation_toggles (selections : list LocId) (id : LocId) :
  ¬ nan_id id →
  (id ∈ selectLocation selections id ↔ id ∉ selections)
  ∧ ∀ id', id' ≠ id →
      (id' ∈ selectLocation selections id ↔ id' ∈ selections).
Proof.
  intros Hnan. unfold selectLocation.
  destruct (includes selections id) eqn:Hin.
  - apply includes_elem_of in Hin. split.
    + rewrite filter_strict_neq_elem_of. tauto.
    + intros id' Hne. rewrite filter_strict_neq_elem_of. tauto.
  - assert (id ∉ selections) as Hnot.
    { intros H. apply includes_elem_of in H. congruence. }
    split.
    + split; [done|]. intros _. apply elem_of_app. right. by left.
    + intros id' Hne. rewrite elem_of_app, list_elem_of_singleton. tauto.
Qed.

Lemma filter_strict_neq_fresh (selections : list LocId) (id : LocId) :
  id ∉ selections →
  List.filter (λ loc, strict_neq loc id) selections = selections.
Proof.
  induction selections as [|a l IH]; [done|].
  intros Hnot. apply not_elem_of_cons in Hnot as [Hne Hnot]. cbn.
  destruct (strict_neq a id) eqn:Ha.
  - by rewrite IH.
  - apply strict_neq_false in Ha as [-> _]. done.
Qed.

Lemma NoDup_filter_bool {A : Type} (f : A → bool) (l : list A) :
  NoDup l → NoDup (List.filter f l).
Proof.
  induction 1 as [|a l Ha Hnd IH]; cbn; [constructor|].
  destruct (f a); [|done]. constructor; [|done].
  intros Hin. apply list_elem_of_In, filter_In in Hin as [Hin _].
  by apply Ha, list_elem_of_In.
Qed.

(** X23. Clicking twice a location (other than NaN) that was not selected
    gives back the selections of before, in their order. *)
Theorem selectLocation_twice (selections : list LocId) (id : LocId) :
  ¬ nan_id id →
  id ∉ selections →
  selectLocation (selectLocation selections id) id = selections.
Proof.
  intros Hnan Hnot. unfold selectLocation at 2.
  assert (includes selections id = false) as ->.
  { apply not_true_iff_false. by rewrite includes_elem_of. }
  unfold selectLocation.
  assert (includes (selections ++ [id]) id = true) as ->.
  { apply includes_elem_of, elem_of_app. right. by left. }
  rewrite List.filter_app, filter_strict_neq_fresh by done. cbn.
  assert (strict_neq id id = false) as -> by (by apply strict_neq_false).
  by rewrite app_nil_r.
Qed.

(** X24. No click makes the selections contain an id twice: selections
    without duplicates stay without duplicates, NaN included. *)
Theorem selectLocation_NoDup (selections : list LocId) (id : LocId) :
  NoDup selections → NoDup (selectLocation selections id).
Proof.
  intros Hnd. unfold selectLocation.
  destruct (includes selections id) eqn:Hin.
  - by apply NoDup_filter_bool.
  - apply NoDup_app. split; [done|]. split; [|apply NoDup_singleton].
    intros x Hx ->%list_elem_of_singleton.
    apply includes_elem_of in Hx. congruence.
Qed.

Lemma set_visible_twice (layer : Layer) :
  set_visible (set_visible layer (negb (visible layer)))
              (negb (visible (set_visible layer (negb (visible layer)))))
  = layer.
Proof. destruct layer. cbn. by rewrite negb_involutive. Qed.

Lemma insert_middle {A} (l1 l2 : list A) (x y : A) :
  <[length l1 := x]> (l1 ++ y :: l2) = l1 ++ x :: l2.
Proof. induction l1 as [|z l1 IH]; [done|]. cbn. f_equal. exact IH. Qed.

Lemma toggleVisibility_middle (layerName : string)
    (before after : list Layer) (layer : Layer) :
  name layer = layerName →
  Forall (λ l, name l ≠ layerName) before →
  toggleVisibility layerName (before ++ layer :: after)
  = before ++ set_visible layer (negb (visible layer)) :: after.
Proof.
  intros Hname Hbefore. unfold toggleVisibility.
  assert (list_find (λ l, name l = layerName) (before ++ layer :: after)
          = Some (length before, layer)) as ->.
  { apply list_find_Some. split; [by apply list_lookup_middle|].
    split; [done|]. intros j y Hj Hlt. rewrite lookup_app_l in Hj by done.
    rewrite Forall_forall in Hbefore. apply Hbefore.
    by eapply list_elem_of_lookup_2. }
  by rewrite insert_middle.
Qed.

(** X25. [toggleVisibility] negates the [visible] flag of the first layer
    of the given name and leaves every other layer as it is, later layers
    of the same name included; the names of the layers stay as they are. *)
Theorem toggleVisibility_first_match (layerName : string)
    (before after : list Layer) (layer : Layer) :
  name layer = layerName →
  Forall (λ l, name l ≠ layerName) before →
  toggleVisibility layerName (before ++ layer :: after)
  = before ++ set_visible layer (negb (visible layer)) :: after
  ∧ name <$> toggleVisibility layerName (before ++ layer :: after)
    = name <$> (before ++ layer :: after).
Proof.
  intros Hname Hbefore. rewrite toggleVisibility_middle by done.
  split; [done|]. by rewrite !fmap_app, !fmap_cons.
Qed.

(** X26. Toggling the visibility of a layer name twice gives back the
    layers of before, whether or not a layer has this name. *)
Theorem toggleVisibility_twice (layerName : string) (layers : list Layer) :
  toggleVisibility layerName (toggleVisibility layerName layers) = layers.
Proof.
  unfold toggleVisibility at 2.
  destruct (list_find _ layers) as [[i layer]|] eqn:Hfind.
  - apply list_find_Some in Hfind as (Hi & Hname & Hfirst).
    apply list_elem_of_split_length in Hi as (before & after & -> & ->).
    rewrite insert_middle.
    assert (Forall (λ l, name l ≠ layerName) before) as Hbefore.
    { apply Forall_forall. intros l Hl.
      apply list_elem_of_lookup in Hl as [j Hj].
      apply (Hfirst j l).
      - by rewrite lookup_app_l by (by eapply lookup_lt_Some).
      - by eapply lookup_lt_Some. }
    rewrite toggleVisibility_middle by done.
    by rewrite set_visible_twice.
  - unfold toggleVisibility. by rewrite Hfind.
Qed.

Lemma Forall2_rendered_visible (ls : list Layer)
    (els : list (option Element)) :
  Forall2 rendered_as ls els →
  Forall (λ l, visible l = true) ls →
  ∃ elements, els = Some <$> elements
    ∧ element_key <$> elements = layer_key <$> ls.
Proof.
  induction 1 as [|l el ls els Hel _ IH]; intros Hv.
  - by exists [].
  - apply Forall_cons in Hv as [Hl Hv].
    destruct (IH Hv) as (elements & -> & Hkeys).
    destruct el as [e|]; cbn in Hel; [|congruence].
    destruct Hel as [_ Hkey]. exists (e :: elements).
    split; [done|]. cbn. by rewrite Hkey, Hkeys.
Qed.

(** X27. The demo gives the choropleth the visible layers only, so the
    choropleth renders an element for every layer it is given, none of the
    entries being [null]: the keys of the elements are the keys of the
    visible layers of the demo, in their order. *)
Theorem demo_layers_all_rendered (c : Choropleth) (demo_layers : list Layer)
    (els : list (option Element)) (memo : gmap string Style) :
  deref (layers (props c)) = visible_layers demo_layers →
  renderLayers c = Some (els, memo) →
  ∃ elements, els = Some <$> elements
    ∧ element_key <$> elements = layer_key <$> visible_layers demo_layers.
Proof.
  intros Hlayers H. apply renderLayers_from_Some in H as [H _].
  rewrite Hlayers in H. apply (Forall2_rendered_visible _ _ H).
  apply Forall_forall. intros l Hl. unfold visible_layers in Hl.
  by apply list_elem_of_In, filter_In in Hl as [_ Hl].
Qed.

End MoreProperties.

(** * More worked examples *)

Section MoreExamples.
#[local] Existing Instance spec_env.

Lemma scaleBase_fits_props_witness :
  match (c ← constructor p600; run c lifecycle) with
  | Some c' =>
      scaleBase (state c')
      = calcScale (width (props c')) (height (props c')) (bounds (state c'))
  | None => False
  end.
Proof.
  apply run_result; [vm_compute; reflexivity|].
  intros c' Ho. apply bind_Some in Ho as (c & Hc & Hrun).
  exact (scaleBase_fits_props p600 c c' lifecycle Hc Hrun).
Defined.

Lemma bounds_are_those_of_cache_witness :
  match (c ← constructor (p_two_layers StyleUndefined);
         run c topology_replaced) with
  | Some c' =>
      bounds (state c') = concatAndComputeGeoJSONBounds (cache (state c'))
  | None => False
  end.
Proof.
  apply run_result; [vm_compute; reflexivity|].
  intros c' Ho. apply bind_Some in Ho as (c & Hc & Hrun).
  exact (bounds_are_those_of_cache (p_two_layers StyleUndefined) c c'
           topology_replaced Hc Hrun).
Defined.

Lemma pathGenerator_matches_state_witness :
  match (c ← constructor p600; run c lifecycle) with
  | Some c' =>
      pathGenerator (state c')
      = createPathGenerator (scale (state c')) (translate (state c'))
                            (clipExtent c')
      ∧ clipExtent c' = padded_extent (width (props c')) (height (props c'))
  | None => False
  end.
Proof.
  apply run_result; [vm_compute; reflexivity|].
  intros c' Ho. apply bind_Some in Ho as (c & Hc & Hrun).
  exact (pathGenerator_matches_state p600 c c' lifecycle Hc Hrun).
Defined.

Lemma unchanged_props_keep_state_witness :
  match mount p600 with
  | Some c =>
      componentWillReceiveProps c p600_other_key
      = Some (mkChoropleth p600_other_key (state c) (clipExtent c) (zoom c)
                (zoom_listener c) (_svgNode c) (meshStyleCache c))
  | None => False
  end.
Proof.
  apply run_result; [vm_compute; reflexivity|].
  intros c Hc. destruct (mount_Some p600 c Hc) as ((Hp & _) & _).
  apply unchanged_props_keep_state; rewrite Hp; vm_compute; reflexivity.
Defined.

Lemma processedData_follows_data_object_witness :
  match (c ← mount p600; componentWillReceiveProps c p600_new_data) with
  | Some c' =>
      processedData (state c')
      = processData (deref (data p600_new_data)) (keyField p600_new_data)
  | None => False
  end.
Proof.
  apply run_result; [vm_compute; reflexivity|].
  intros c' Ho. apply bind_Some in Ho as (c & Hc & Hrecv).
  destruct (mount_Some p600 c Hc) as ((Hp & _) & _).
  rewrite (processedData_follows_data_object c c' p600_new_data Hrecv).
  rewrite Hp. reflexivity.
Defined.

Lemma no_svg_node_throws_witness :
  match constructor p600 with
  | Some c =>
      zoomIn c = None ∧ zoomOut c = None ∧ zoomReset c = None
      ∧ componentDidMount c = None
      ∧ componentWillReceiveProps c p300 = None
  | None => False
  end.
Proof.
  apply run_result; [vm_compute; reflexivity|].
  intros c Hc.
  destruct (constructor_Some p600 c Hc) as (Hp & _ & _ & _ & _ & Hnode & _).
  destruct (no_svg_node_throws c Hnode) as (H1 & H2 & H3 & H4 & H5).
  repeat split; try assumption.
  apply H5. left. rewrite Hp. vm_compute. reflexivity.
Defined.

Lemma zoomReset_fits_and_is_idempotent_witness :
  match zoomed_twice with
  | Some c =>
      ∃ c', zoomReset c = Some c'
        ∧ scale (state c') = scaleBase (state c)
        ∧ translate (state c')
          = calcTranslate (width (props c)) (height (props c))
                          (scaleBase (state c)) (bounds (state c)) None
        ∧ scaleBase (state c') = scaleBase (state c)
        ∧ bounds (state c') = bounds (state c)
        ∧ zoomReset c' = Some c'
  | None => False
  end.
Proof.
  apply run_result; [vm_compute; reflexivity|].
  intros c Hc.
  assert (is_Some (_svgNode c)) as [t Ht].
  { apply (observed_prop zoomed_twice (λ c, is_Some (_svgNode c)) c);
      [vm_compute; reflexivity | exact Hc]. }
  apply (zoomReset_fits_and_is_idempotent c t Ht).
  apply (observed zoomed_twice (λ c, zoom_listener c) c);
    [vm_compute; reflexivity | exact Hc].
Defined.

Lemma mount_keeps_constructor_state_witness :
  match mount p600 with
  | Some c =>
      ∃ c0, constructor p600 = Some c0
        ∧ state c = state c0
        ∧ props c = p600
        ∧ clipExtent c = clipExtent c0
        ∧ zoom c = zoom c0
  | None => False
  end.
Proof.
  apply run_result; [vm_compute; reflexivity|].
  intros c Hc. exact (mount_keeps_constructor_state p600 c Hc).
Defined.

Lemma renderLayers_one_entry_per_layer_witness :
  match (c ← constructor p_borders_hidden;
         r ← renderLayers c; Some (c, r.1)) with
  | Some (c, els) =>
      Forall2 rendered_as (deref (layers (props c))) els
      ∧ length els = length (deref (layers (props c)))
  | None => False
  end.
Proof.
  apply run_result; [vm_compute; reflexivity|].
  intros [c els] Ho. apply bind_Some in Ho as (c0 & _ & Ho).
  apply bind_Some in Ho as ([els0 memo] & Hr & [= <- <-]).
  exact (renderLayers_one_entry_per_layer c0 els0 memo Hr).
Defined.

Lemma render_twice_witness :
  match (c ← mount (p_two_layers (StyleObject red)); render c) with
  | Some (tree, c1) => render c1 = Some (tree, c1)
  | None => False
  end.
Proof.
  apply run_result; [vm_compute; reflexivity|].
  intros [tree c1] Ho. apply bind_Some in Ho as (c & _ & Hr).
  exact (render_twice c c1 tree Hr).
Defined.

Lemma mesh_style_never_recomputed_witness :
  match (c ← two_layers_rendered;
         st ← meshStyleCache c !! "mesh-borders";
         c' ← run c restyled; Some (st, c')) with
  | Some (st, c') =>
      meshStyleCache c' !! "mesh-borders" = Some st
      ∧ renderLayer c' (meshStyleCache c') (borders true (StyleObject blue))
        = Some (Some (Path "" "mesh-borders"
                        (cache_mesh (cache (state c')) !! "borders")
                        (pathGenerator (state c')) st),
                meshStyleCache c')
  | None => False
  end.
Proof.
  apply run_result; [vm_compute; reflexivity|].
  intros [st c'] Ho. apply bind_Some in Ho as (c & _ & Ho).
  apply bind_Some in Ho as (st0 & Hst & Ho).
  apply bind_Some in Ho as (c1 & Hrun & [= <- <-]).
  exact (mesh_style_never_recomputed c c1 restyled
           (borders true (StyleObject blue)) st0 Hst Hrun eq_refl eq_refl).
Defined.

Lemma update_extracts_visible_layers_only_witness :
  match mount (p_two_layers StyleUndefined) with
  | Some c =>
      match extracted_layers c p_new_topology with
      | l :: _ => l ∈ deref (layers p_new_topology) ∧ visible l = true
      | [] => False
      end
  | None => False
  end.
Proof.
  apply run_result; [vm_compute; reflexivity|].
  intros c Hc.
  assert (match extracted_layers c p_new_topology with
          | _ :: _ => true | [] => false end = true) as Hne.
  { apply (observed (mount (p_two_layers StyleUndefined))
             (λ c, match extracted_layers c p_new_topology with
                   | _ :: _ => true | [] => false end) c);
      [vm_compute; reflexivity | exact Hc]. }
  pose proof (update_extracts_visible_layers_only c p_new_topology) as H.
  destruct (extracted_layers c p_new_topology) as [|l ls];
    [discriminate Hne|].
  apply H. left.
Defined.

Lemma new_topology_extracts_all_visible_witness :
  match mount (p_two_layers StyleUndefined) with
  | Some c =>
      extracted_layers c p_new_topology
      = List.filter visible (deref (layers p_new_topology))
  | None => False
  end.
Proof.
  apply run_result; [vm_compute; reflexivity|].
  intros c Hc.
  destruct (mount_Some (p_two_layers StyleUndefined) c Hc) as ((Hp & _) & _).
  apply new_topology_extracts_all_visible. rewrite Hp. reflexivity.
Defined.

Lemma hidden_layers_keep_cache_witness :
  match (c ← mount (p_two_layers StyleUndefined);
         c' ← componentWillReceiveProps c p_hidden_new_topology;
         Some (c, c')) with
  | Some (c, c') =>
      extracted_layers c p_hidden_new_topology = []
      ∧ cache (state c') = cache (state c)
      ∧ bounds (state c') = bounds (state c)
  | None => False
  end.
Proof.
  apply run_result; [vm_compute; reflexivity|].
  intros [c c'] Ho. apply bind_Some in Ho as (c0 & _ & Ho).
  apply bind_Some in Ho as (c1 & Hrecv & [= <- <-]).
  apply (hidden_layers_keep_cache c0 c1 p_hidden_new_topology);
    [|exact Hrecv].
  repeat constructor.
Defined.

Lemma processData_unique_keys_witness :
  (∀ d, d ∈ deref sample_data →
     processData (deref sample_data) (SpecUtils.FieldName "id")
       !! propResolver d (SpecUtils.FieldName "id") = Some d)
  ∧ size (processData (deref sample_data) (SpecUtils.FieldName "id")) = 2%nat.
Proof.
  apply (processData_unique_keys (E:=spec_env) (deref sample_data)
           (SpecUtils.FieldName "id")).
  apply (bool_decide_unpack _). vm_compute. reflexivity.
Defined.

Lemma zooming_in_keeps_points_witness :
  is_Some (point (of_Z 2) (of_Z 10, of_Z 20) (of_Z 3) (of_Z 4) (of_Z 1)).
Proof.
  apply (zooming_in_keeps_points (Q2Qc 1) (Q2Qc 2) (0%num, 0%num)
           (of_Z 10, of_Z 20) (of_Z 3) (of_Z 4) (of_Z 1)).
  - reflexivity.
  - discriminate.
  - eexists. reflexivity.
Defined.

Lemma no_point_at_scale_zero_witness :
  point 0%num (of_Z 10, of_Z 20) (of_Z 3) (of_Z 4) (of_Z 1) = None.
Proof.
  apply (no_point_at_scale_zero 0%num (of_Z 10, of_Z 20) (of_Z 3) (of_Z 4)
           (Q2Qc 1)).
  left. reflexivity.
Defined.

Lemma container_clones_element_children_witness :
  match ResponsiveContainer_children with_size [Some p600; None; Some p0]
          (of_Z 300) (of_Z 200) with
  | Some rendered =>
      omap id rendered
      = [with_size p600 (of_Z 300) (of_Z 200);
         with_size p0 (of_Z 300) (of_Z 200)]
  | None => False
  end.
Proof.
  apply run_result; [vm_compute; reflexivity|].
  intros rendered Hr.
  destruct (container_clones_element_children with_size
              [Some p600; None; Some p0] rendered (of_Z 300) (of_Z 200) Hr)
    as [H _].
  exact H.
Defined.

Lemma selectLocation_toggles_witness :
  (LocString "USA" ∈ selectLocation selected (LocString "USA")
   ↔ LocString "USA" ∉ selected)
  ∧ ∀ id', id' ≠ LocString "USA" →
      (id' ∈ selectLocation selected (LocString "USA") ↔ id' ∈ selected).
Proof.
  apply (selectLocation_toggles selected (LocString "USA")).
  cbn. tauto.
Defined.

Lemma selectLocation_twice_witness :
  selectLocation (selectLocation selected (LocString "FRA")) (LocString "FRA")
  = selected.
Proof.
  apply (selectLocation_twice selected (LocString "FRA")).
  - cbn. tauto.
  - apply (bool_decide_unpack _). vm_compute. reflexivity.
Defined.

Lemma selectLocation_NoDup_witness :
  NoDup (selectLocation selected (LocNumber (of_Z 6))).
Proof.
  apply (selectLocation_NoDup selected (LocNumber (of_Z 6))).
  apply (bool_decide_unpack _). vm_compute. reflexivity.
Defined.

Lemma toggleVisibility_first_match_witness :
  toggleVisibility "borders"
    ([countries true] ++ borders true StyleUndefined
       :: [borders true StyleUndefined])
  = [countries true] ++ borders false StyleUndefined
      :: [borders true StyleUndefined]
  ∧ name <$> toggleVisibility "borders"
               ([countries true] ++ borders true StyleUndefined
                  :: [borders true StyleUndefined])
    = ["countries"; "borders"; "borders"].
Proof.
  apply (toggleVisibility_first_match "borders" [countries true]
           [borders true StyleUndefined] (borders true StyleUndefined)).
  - reflexivity.
  - constructor; [discriminate|constructor].
Defined.

Lemma demo_layers_all_rendered_witness :
  match (c ← constructor p_demo; r ← renderLayers c; Some r.1) with
  | Some els =>
      ∃ elements, els = Some <$> elements
        ∧ element_key <$> elements = ["feature-countries"; "mesh-borders"]
  | None => False
  end.
Proof.
  apply run_result; [vm_compute; reflexivity|].
  intros els Ho. apply bind_Some in Ho as (c & Hc & Ho).
  apply bind_Some in Ho as ([els0 memo] & Hr & [= <-]).
  destruct (constructor_Some p_demo c Hc) as (Hp & _).
  apply (demo_layers_all_rendered c demo_layers els0 memo); [|exact Hr].
  rewrite Hp. reflexivity.
Defined.

End MoreExamples.
